(** * ReusableForm: a shallow embedding of the declarative form renderer

    The component under study is [ReusableForm] (React, react-hook-form and a
    Yup resolver).  Its logic is a visibility predicate ([shouldRender]), a
    dispatch on [field.type] producing an element tree, and a pass-through
    submit handler ([enhancedSubmit]) wrapped by the form library's
    [handleSubmit].

    The definitions come first:
    - [JS]: the fragment of the ECMAScript value semantics the component
      relies on (truthiness, [||], [===], [<=], property keys, [Array(n)]);
    - [Form]: the component itself, written over a small state-and-exception
      monad whose state is the form library's store, and the readers of the
      element trees it returns;
    - [Sample]: forms and stores to run the component on.
    The properties follow: the value semantics ([JSFacts]), the visibility
    predicate ([Visibility]), passes over the store ([PassFacts], [Purity]),
    what a visible field renders ([Rendering]) and submissions ([Submit]);
    then the blocks of the dispatch ([Blocks]), the fields of a pass
    ([Fields]), what a pass leaves alone ([Frame]), the stars of a rating
    ([Stars]) and the class names ([Cosmetic]). *)

From Stdlib Require Import QArith Qcanon Qround.
From stdpp Require Import base numbers list strings pretty gmap.

Local Open Scope string_scope.
Local Open Scope list_scope.
Set Warnings "-register-all".

(** ** ECMAScript values *)

Module JS.

(** Numbers.  A finite double is a rational, so finite numbers are modelled
    by canonical rationals; the component only compares numbers and adds one
    to small integers, and on doubles both agree with the rationals.  [+0] and
    [-0] are identified: [===], [||], [<=] and [Array] do not tell them
    apart. *)
Inductive Number :=
  | NaN
  | Infinity (negative : bool)
  | Finite (q : Qc).

(** Language values.  An [object] is a reference: [ref] is its identity and
    [tag] the name its default string conversion prints ([Object],
    [FileList], ...).  Symbols and BigInts do not occur. *)
Inductive Value :=
  | undefined
  | null
  | boolean (b : bool)
  | number (n : Number)
  | str (s : string)
  | object (tag : string) (ref : nat).

Definition of_Z (z : Z) : Value := number (Finite (Qc_of_Z z)).
Definition of_nat (n : nat) : Value := of_Z (Z.of_nat n).

(** The conversions between strings and numbers ([StringToNumber] and
    [Number::toString] of ECMA-262) are kept abstract: the component is
    verified for every pair of conversions under which the empty string
    converts to zero. *)
Class Conversions := {
  StringToNumber : string → Number;
  NumberToString : Number → string;
  StringToNumber_empty : StringToNumber "" = Finite (Qc_of_Z 0)
}.

(** [ToBoolean]. *)
Definition truthy (v : Value) : bool :=
  match v with
  | undefined | null => false
  | boolean b => b
  | number NaN => false
  | number (Infinity _) => true
  | number (Finite q) => negb (Qeq_bool q 0%Qc)
  | str s => negb (String.eqb s "")
  | object _ _ => true
  end.

(** [a || b]. *)
Definition logical_or (a b : Value) : Value := if truthy a then a else b.

(** [Number::equal]. *)
Definition number_equal (a b : Number) : bool :=
  match a, b with
  | Finite p, Finite q => Qeq_bool p q
  | Infinity s, Infinity t => Bool.eqb s t
  | _, _ => false
  end.

(** [a === b] (IsStrictlyEqual): no conversion; values of different types
    are never equal, objects are compared by identity. *)
Definition strict_equal (a b : Value) : bool :=
  match a, b with
  | undefined, undefined => true
  | null, null => true
  | boolean x, boolean y => Bool.eqb x y
  | number x, number y => number_equal x y
  | str x, str y => String.eqb x y
  | object _ r, object _ r' => Nat.eqb r r'
  | _, _ => false
  end.

(** [arr.includes(v)] (SameValueZero), on the arrays of string literals the
    component uses: there it coincides with [===]. *)
Definition includes (arr : list string) (v : Value) : bool :=
  existsb (λ s, strict_equal (str s) v) arr.

(** [ToString] on the values used as property keys; an object prints through
    [Object.prototype.toString]. *)
Definition to_string `{Conversions} (v : Value) : string :=
  match v with
  | undefined => "undefined"
  | null => "null"
  | boolean true => "true"
  | boolean false => "false"
  | number n => NumberToString n
  | str s => s
  | object tag _ => "[object " ++ tag ++ "]"
  end.

(** [ToNumber]; an object converts through its string form. *)
Definition to_number `{Conversions} (v : Value) : Number :=
  match v with
  | undefined => NaN
  | null => Finite (Qc_of_Z 0)
  | boolean true => Finite (Qc_of_Z 1)
  | boolean false => Finite (Qc_of_Z 0)
  | number n => n
  | str s => StringToNumber s
  | object tag r => StringToNumber (to_string (object tag r))
  end.

(** [Number::lessThan] read as [a <= b]: false as soon as one side is
    [NaN]. *)
Definition number_le (a b : Number) : bool :=
  match a, b with
  | NaN, _ | _, NaN => false
  | Infinity true, _ => true
  | _, Infinity false => true
  | Infinity false, _ => false
  | _, Infinity true => false
  | Finite p, Finite q => Qle_bool p q
  end.

(** [a <= b] where [a] is a number: the comparison is numeric and [b] goes
    through [ToNumber]. *)
Definition less_equal `{Conversions} (a : Number) (b : Value) : bool :=
  number_le a (to_number b).


(** The properties every plain object inherits from [Object.prototype]:
    built-in functions, and the accessor [__proto__], which reads the
    prototype itself.  All of them are objects of the realm; they are given
    the references 0 to 11. *)
Definition Object_prototype : list (string * Value) :=
  [ ("constructor", object "Function" 0);
    ("hasOwnProperty", object "Function" 1);
    ("isPrototypeOf", object "Function" 2);
    ("propertyIsEnumerable", object "Function" 3);
    ("toLocaleString", object "Function" 4);
    ("toString", object "Function" 5);
    ("valueOf", object "Function" 6);
    ("__defineGetter__", object "Function" 7);
    ("__defineSetter__", object "Function" 8);
    ("__lookupGetter__", object "Function" 9);
    ("__lookupSetter__", object "Function" 10);
    ("__proto__", object "Object" 11) ].

(** The property a plain object inherits under a name, if any. *)
Fixpoint assoc (key : string) (l : list (string * Value)) : option Value :=
  match l with
  | [] => None
  | (k, v) :: rest => if String.eqb k key then Some v else assoc key rest
  end.

Definition inherited (key : string) : option Value :=
  assoc key Object_prototype.

(** Exceptions the component can raise while rendering. *)
Inductive Exception :=
  | TypeError
  | RangeError.

(** [[...Array(n)]]: for a number, an array of [n] empty slots, which the
    spread reads as [undefined], and a [RangeError] unless [n] is an integer
    in [0, 2^32 - 1]; for anything else the one-element array [[n]]. *)
Definition Array (n : Value) : Exception + list Value :=
  match n with
  | number (Finite q) =>
      if decide (Qden q = 1%positive ∧ (0 ≤ Qnum q < 2 ^ 32)%Z)
      then inr (replicate (Z.to_nat (Qnum q)) undefined)
      else inl RangeError
  | number _ => inl RangeError
  | v => inr [v]
  end.

(** An instance of the conversions, for running the component on examples.
    It reads and prints the plain decimal numerals of natural numbers, which
    is how the component's own controls write star values, and agrees with
    ECMA-262 there (below 10^21); it is not meant to agree elsewhere: other
    numerals read as [NaN]. *)
Module Decimal.
Definition digit (c : Ascii.ascii) : option Z :=
  let n := Z.of_nat (Ascii.nat_of_ascii c) in
  if decide (48 ≤ n ≤ 57)%Z then Some (n - 48)%Z else None.

Fixpoint digits (acc : Z) (s : string) : option Z :=
  match s with
  | EmptyString => Some acc
  | String c s' =>
      match digit c with
      | Some d => digits (10 * acc + d) s'
      | None => None
      end
  end.

Definition parse (s : string) : Number :=
  match digits 0 s with
  | Some z => Finite (Qc_of_Z z)
  | None => NaN
  end.

Definition print (n : Number) : string :=
  match n with
  | NaN => "NaN"
  | Infinity true => "-Infinity"
  | Infinity false => "Infinity"
  | Finite q => pretty (Qnum q)
  end.

Definition conversions : Conversions :=
  {| StringToNumber := parse;
     NumberToString := print;
     StringToNumber_empty := eq_refl |}.
End Decimal.

(** The relation [===] decides. *)
Inductive StrictlyEqual : Value → Value → Prop :=
  | se_undefined : StrictlyEqual undefined undefined
  | se_null : StrictlyEqual null null
  | se_boolean b : StrictlyEqual (boolean b) (boolean b)
  | se_number n : n ≠ NaN → StrictlyEqual (number n) (number n)
  | se_str s : StrictlyEqual (str s) (str s)
  | se_object t t' r : StrictlyEqual (object t r) (object t' r).

(** The language type of a value, as [===] sees it. *)
Inductive Kind := Undefined | Null | Boolean | Number_ | String_ | Object.

Definition kind (v : Value) : Kind :=
  match v with
  | undefined => Undefined
  | null => Null
  | boolean _ => Boolean
  | number _ => Number_
  | str _ => String_
  | object _ _ => Object
  end.

End JS.

(** ** The component *)

Module Form.
Import JS.

(** One entry of [field.options]. *)
Module Opt.
Record t := { value : Value; label : Value }.
End Opt.

(** The object under [field.conditional]; a key the caller left out reads
    [undefined].  (The specification calls the two keys [dependsOnField] and
    [equals].) *)
Module Cond.
Record t := { field : Value; value : Value }.
End Cond.

(** A field descriptor.  Keys the caller may leave out are values that read
    [undefined] when absent ([label], [type], [placeholder], [max]) or
    options ([options], [conditional]: an object when present, hence
    truthy). *)
Record Field := {
  name : string;
  label : Value;
  type : Value;
  placeholder : Value;
  options : option (list Opt.t);
  conditional : option Cond.t;
  max : Value
}.

(** An entry of [formState.errors]. *)
Record FieldError := { message : Value }.

(** A function handed over by the caller.  Its body is the caller's; the
    component can only invoke it. *)
Inductive Callback := callback (id : nat).

(** What the component shares with its collaborators: the form library's
    store ([formValues], [formErrors], the names mounted by [register]) and
    the log of the invocations of the caller's callbacks, each with its
    argument. *)
Record World := {
  formValues : gmap string Value;
  formErrors : gmap string FieldError;
  mounted : gset string;
  invoked : list (Callback * gmap string Value)
}.

(** Computations over the world that may raise. *)
Definition M (A : Type) : Type := World → World * (Exception + A).

Definition ret {A} (a : A) : M A := λ w, (w, inr a).

Definition bind {A B} (m : M A) (k : A → M B) : M B :=
  λ w, match m w with
       | (w', inr a) => k a w'
       | (w', inl e) => (w', inl e)
       end.

Notation "'let*' x ':=' m 'in' k" := (bind m (λ x, k))
  (at level 10, x name, m at level 100, k at level 200,
   format "'let*'  x  :=  m  'in'  '/' k").

Definition lift {A} (r : Exception + A) : M A := λ w, (w, r).

Definition throw {A} (e : Exception) : M A := lift (inl e).

(** [arr.map(f)] for a callback with effects, run left to right. *)
Fixpoint mapM {A B} (f : A → M B) (l : list A) : M (list B) :=
  match l with
  | [] => ret []
  | a :: l' => let* b := f a in let* bs := mapM f l' in ret (b :: bs)
  end.

(** The object returned by [register(name)]: the [name], [onChange],
    [onBlur] and [ref] that bind a control to the store under [name]. *)
Record Registration := { bound_to : string }.

(** Element trees.  An attribute is a plain one, a spread registration, a
    style object or an event handler; a child is a value ([false], [null]
    and [undefined] paint nothing, a string paints as text), an element or an
    array of children. *)
Inductive Attr :=
  | attr (key : string) (v : Value)
  | spread (r : Registration)
  | style (declarations : list (string * string))
  | handler (event : string) (h : M ()).

Inductive Node :=
  | expr (v : Value)
  | element (tag : string) (attrs : list Attr) (children : list Node)
  | array (items : list Node).

Definition text (s : string) : Node := expr (str s).

(** [cond && node] in child position. *)
Definition when (cond : bool) (node : Node) : Node :=
  if cond then node else expr (boolean false).

Definition whenM (cond : bool) (node : M Node) : M Node :=
  if cond then node else ret (expr (boolean false)).

(** *** The form library

    [useForm] hands the component [register], [watch], [formState.errors] and
    [handleSubmit], all bound to one store. *)

(** Modelled from the spec: [watch] belongs to the form library, which is not
    part of the sources.  [watch()] reads the current value-set. *)
Definition watch_all : M (gmap string Value) := λ w, (w, inr (formValues w)).

(** [obj[key]] on a plain object whose own properties are [obj], the key
    going through [ToString]: the own property when there is one, else the
    property inherited from [Object.prototype], else [undefined]. *)
Definition get `{Conversions} (obj : gmap string Value) (key : Value) : Value :=
  match obj !! to_string key with
  | Some v => v
  | None => default undefined (inherited (to_string key))
  end.

(** Modelled from the spec: [watch(name)], of the form library, reads the
    current value of one field, [undefined] while the field is unset. *)
Definition watch (name : string) : M Value :=
  λ w, (w, inr (default undefined (formValues w !! name))).

(** Modelled from the spec: [formState.errors], of the form library, is the
    current error-set. *)
Definition formState_errors : M (gmap string FieldError) :=
  λ w, (w, inr (formErrors w)).

(** Modelled from the spec: [register(name)], of the form library, binds a
    control to the store: it mounts [name] and returns the binding; the
    value-set is written by the bound controls' events, not by a pass. *)
Definition register (name : string) : M Registration :=
  λ w, ({| formValues := formValues w; formErrors := formErrors w;
           mounted := {[name]} ∪ mounted w; invoked := invoked w |},
        inr {| bound_to := name |}).

(** [f(data)] for a callback of the caller: the invocation is recorded with
    its argument. *)
Definition invoke (f : Callback) (data : gmap string Value) : M () :=
  λ w, ({| formValues := formValues w; formErrors := formErrors w;
           mounted := mounted w; invoked := invoked w ++ [(f, data)] |},
        inr ()).

(** The validation engine bound to a schema: from a value-set to the errors
    of the fields that fail, none when the value-set is valid. *)
Definition Schema : Type := gmap string Value → gmap string FieldError.

(** Modelled from the spec: [handleSubmit] belongs to the form library, which
    is not part of the sources.  Following section 4.3: on a submit it runs
    the validation engine on the complete current value-set; when that is
    valid it invokes its argument once with the full value-set, otherwise it
    does not invoke it; either way the error-set becomes what the engine
    reported.  (Preventing the native default leaves the world as it is.) *)
Definition handleSubmit (schema : Schema) (onValid : gmap string Value → M ())
    : M () :=
  λ w, let data := formValues w in
       let failures := schema data in
       let w' := {| formValues := formValues w; formErrors := failures;
                    mounted := mounted w; invoked := invoked w |} in
       if decide (failures = ∅) then onValid data w' else (w', inr ()).

(** *** ReusableForm *)

(** The component's props; the class names default to the empty string. *)
Record Props := {
  fields : list Field;
  onSubmit : Callback;
  schema : Schema;
  className : string;
  inputClassName : string;
  labelClassName : string;
  selectClassName : string;
  textareaClassName : string;
  checkboxClassName : string;
  checkboxInputClassName : string;
  radioWrapperClassName : string;
  fileInputClassName : string;
  ratingClassName : string;
  submitButtonClassName : string
}.

(** [enhancedSubmit], a closure over the [onSubmit] prop: it hands the data
    to the caller's callback. *)
Definition enhancedSubmit (onSubmit : Callback) (data : gmap string Value)
    : M () :=
  invoke onSubmit data.

(** [field.options.map(f)]; reading [map] off an absent [options] raises. *)
Definition options_map {B} (f : Opt.t → M B) (field : Field) : M (list B) :=
  match options field with
  | Some l => mapM f l
  | None => throw TypeError
  end.

(** [i + 1] for an array index [i]. *)
Definition succ_index (i : nat) : Number := Finite (Qc_of_Z (Z.of_nat i + 1)).

Section Render.
Context `{Conversions}.
Variable props : Props.
Variable watchedValues : gmap string Value.
Variable errors : gmap string FieldError.

(** [shouldRender]: a field without a conditional is shown; otherwise the
    watched value of the field it depends on has to be [===] the trigger. *)
Definition shouldRender (field : Field) : bool :=
  match conditional field with
  | None => true
  | Some c =>
      let depField := Cond.field c in
      let value := Cond.value c in
      strict_equal (get watchedValues depField) value
  end.

Definition has_type (field : Field) (kind : string) : bool :=
  strict_equal (type field) (str kind).

Definition label_block (field : Field) : Node :=
  when (negb (has_type field "checkbox") && negb (has_type field "rating"))
    (element "label"
       [attr "htmlFor" (str (name field));
        attr "className"
          (str ("mb-1 block text-sm font-medium text-gray-900 "
                ++ labelClassName props))]
       [expr (label field)]).

Definition input_branch (field : Field) : M Node :=
  whenM (includes ["text"; "email"; "password"; "date"] (type field))
    (let* r := register (name field) in
     ret (element "input"
            [attr "id" (str (name field));
             attr "type" (type field);
             spread r;
             attr "className"
               (str ("block w-full rounded-md bg-white px-3 py-1.5 text-base text-gray-900 outline outline-1 -outline-offset-1 outline-gray-300 placeholder:text-gray-400  sm:text-sm/6 "
                     ++ inputClassName props));
             attr "placeholder" (placeholder field)]
            [])).

Definition textarea_branch (field : Field) : M Node :=
  whenM (has_type field "textarea")
    (let* r := register (name field) in
     ret (element "textarea"
            [attr "id" (str (name field));
             spread r;
             attr "className"
               (str ("block w-full rounded-md bg-white px-3 py-1.5 text-base text-gray-900 outline outline-1 -outline-offset-1 outline-gray-300 placeholder:text-gray-400 focus:outline focus:outline-2 focus:-outline-offset-2 focus:outline-indigo-600 sm:text-sm/6 "
                     ++ textareaClassName props));
             attr "placeholder" (placeholder field)]
            [])).

Definition select_option (option : Opt.t) : Node :=
  element "option"
    [attr "key" (Opt.value option); attr "value" (Opt.value option)]
    [expr (Opt.label option)].

Definition select_branch (field : Field) : M Node :=
  whenM (has_type field "select")
    (let* r := register (name field) in
     let* entries := options_map (λ option, ret (select_option option)) field in
     ret (element "select"
            [attr "id" (str (name field));
             spread r;
             attr "className"
               (str ("w-full rounded-md bg-white py-1.5 pl-3 pr-8 text-base text-gray-900 outline outline-1 -outline-offset-1 outline-gray-300 focus:outline focus:outline-2 focus:-outline-offset-2 focus:outline-indigo-600 sm:text-sm/6 "
                     ++ selectClassName props))]
            [array entries])).

Definition radio_option (field : Field) (option : Opt.t) : M Node :=
  let* r := register (name field) in
  ret (element "label"
         [attr "key" (Opt.value option);
          attr "className" (str "block text-sm font-medium text-gray-900")]
         [element "input"
            [attr "type" (str "radio");
             attr "value" (Opt.value option);
             spread r;
             style [("marginRight", "5px")]]
            [];
          expr (Opt.label option)]).

Definition radio_branch (field : Field) : M Node :=
  whenM (has_type field "radio")
    (let* entries := options_map (radio_option field) field in
     ret (element "div"
            [attr "className"
               (str ("flex flex-col gap-1 mt-1 "
                     ++ radioWrapperClassName props))]
            [array entries])).

Definition checkbox_branch (field : Field) : M Node :=
  whenM (has_type field "checkbox")
    (let* r := register (name field) in
     ret (element "label"
            [attr "className"
               (str ("flex items-center gap-2 text-sm font-medium text-gray-900 "
                     ++ checkboxClassName props))]
            [element "input"
               [attr "id" (str (name field));
                attr "type" (str "checkbox");
                spread r;
                attr "className" (str (checkboxInputClassName props))]
               [];
             expr (label field)])).

Definition file_branch (field : Field) : M Node :=
  whenM (has_type field "file")
    (let* r := register (name field) in
     ret (element "input"
            [attr "id" (str (name field));
             attr "type" (str "file");
             spread r;
             attr "className"
               (str ("mt-1 w-full text-sm text-gray-700 "
                     ++ fileInputClassName props))]
            [])).

(** The callback of the rating branch's [map]: the star at index [i]. *)
Definition star (field : Field) (i : nat) : M Node :=
  let value := succ_index i in
  let* r := register (name field) in
  let* current := watch (name field) in
  ret (element "label"
         [attr "key" (number value);
          attr "className" (str "cursor-pointer")]
         [element "input"
            [attr "type" (str "radio");
             attr "value" (number value);
             spread r;
             attr "className" (str "hidden")]
            [];
          element "span"
            [attr "className" (str "text-2xl text-yellow-400")]
            [text (if less_equal value (logical_or current (of_Z 0)) then "★" else "☆")]]).

Definition rating_branch (field : Field) : M Node :=
  whenM (has_type field "rating")
    (let* slots := lift (Array (logical_or (max field) (of_Z 5))) in
     let* stars := mapM (star field) (seq 0 (length slots)) in
     ret (element "div"
            [attr "className" (str "flex flex-col gap-1 ")]
            [element "label"
               [attr "className"
                  (str ("mb-1 block text-sm font-medium text-gray-900 "
                        ++ labelClassName props))]
               [expr (label field)];
             element "div"
               [attr "className"
                  (str ("flex gap-1 " ++ ratingClassName props))]
               [array stars]])).

(** [errors[field.name] && <div>{errors[field.name].message}</div>], a read
    on the plain object of the errors: an entry is an object and so truthy;
    without an entry, a name of [Object.prototype] reads a built-in object,
    truthy as well and without a [message]; any other name reads
    [undefined]. *)
Definition errors_display (field : Field) : Node :=
  match errors !! name field with
  | Some e =>
      element "div"
        [attr "className" (str "mt-1 text-sm text-red-500")]
        [expr (message e)]
  | None =>
      match inherited (name field) with
      | Some _ =>
          element "div"
            [attr "className" (str "mt-1 text-sm text-red-500")]
            [expr undefined]
      | None => expr undefined
      end
  end.

(** The callback of [fields.map]. *)
Definition renderField (field : Field) : M Node :=
  if negb (shouldRender field) then ret (expr null)
  else
    let* input := input_branch field in
    let* textarea := textarea_branch field in
    let* select := select_branch field in
    let* radio := radio_branch field in
    let* checkbox := checkbox_branch field in
    let* file := file_branch field in
    let* rating := rating_branch field in
    ret (element "div"
           [attr "key" (str (name field));
            attr "className" (str "mb-4 text-start")]
           [label_block field; input; textarea; select; radio; checkbox;
            file; rating; errors_display field]).
End Render.

(** One render pass of the component.  ([useForm] was given the resolver of
    [schema], which is what [handleSubmit] validates with.) *)
Definition ReusableForm `{Conversions} (props : Props) : M Node :=
  let* errors := formState_errors in
  let* watchedValues := watch_all in
  let* items := mapM (renderField props watchedValues errors) (fields props) in
  ret (element "form"
         [handler "onSubmit"
            (handleSubmit (schema props) (enhancedSubmit (onSubmit props)));
          attr "className" (str ("p-5 md:p-10 text-start " ++ className props))]
         [array items;
          element "button"
            [attr "type" (str "submit");
             attr "className"
               (str ("px-3 py-2 text-sm font-semibold shadow-sm  "
                     ++ submitButtonClassName props))]
            [text "Submit"]]).

(** *** Reading an element tree *)

(** The value of a plain attribute. *)
Fixpoint attribute (key : string) (attrs : list Attr) : option Value :=
  match attrs with
  | [] => None
  | attr k v :: rest => if String.eqb k key then Some v else attribute key rest
  | _ :: rest => attribute key rest
  end.

Definition is_radio (attrs : list Attr) : bool :=
  match attribute "type" attrs with
  | Some v => strict_equal v (str "radio")
  | None => false
  end.

(** A selectable entry: an [<option value>] around its label, or a
    [<label>] around a radio [<input value>] followed by its label.  The
    result is the entry's value and label. *)
Definition selectable (tag : string) (attrs : list Attr) (children : list Node)
    : option (Value * Value) :=
  match children with
  | [expr l] =>
      if String.eqb tag "option"
      then v ← attribute "value" attrs; Some (v, l)
      else None
  | [element itag iattrs []; expr l] =>
      if String.eqb tag "label" && String.eqb itag "input" && is_radio iattrs
      then v ← attribute "value" iattrs; Some (v, l)
      else None
  | _ => None
  end.

(** The selectable entries of a tree, in document order. *)
Fixpoint entries (n : Node) : list (Value * Value) :=
  match n with
  | expr _ => []
  | array items => flat_map entries items
  | element tag attrs children =>
      match selectable tag attrs children with
      | Some e => [e]
      | None => flat_map entries children
      end
  end.

(** A star control: a [<label>] around a radio [<input value>] and a
    [<span>] holding the glyph.  The result is the star's value and glyph. *)
Definition star_control (tag : string) (children : list Node)
    : option (Value * Value) :=
  match children with
  | [element itag iattrs []; element stag _ [expr glyph]] =>
      if String.eqb tag "label" && String.eqb itag "input" && is_radio iattrs
         && String.eqb stag "span"
      then v ← attribute "value" iattrs; Some (v, glyph)
      else None
  | _ => None
  end.

(** The star controls of a tree, in document order. *)
Fixpoint stars (n : Node) : list (Value * Value) :=
  match n with
  | expr _ => []
  | array items => flat_map stars items
  | element tag attrs children =>
      match star_control tag children with
      | Some s => [s]
      | None => flat_map stars children
      end
  end.

(** The interactive controls of a tree: its [<input>], [<textarea>] and
    [<select>] elements. *)
Fixpoint controls (n : Node) : list Node :=
  match n with
  | expr _ => []
  | array items => flat_map controls items
  | element tag attrs children =>
      (if existsb (String.eqb tag) ["input"; "textarea"; "select"]
       then [n] else [])
      ++ flat_map controls children
  end.

(** Submitting a rendered form runs the handler under its [onSubmit]. *)
Fixpoint event_handler (event : string) (attrs : list Attr) : option (M ()) :=
  match attrs with
  | [] => None
  | handler e h :: rest =>
      if String.eqb e event then Some h else event_handler event rest
  | _ :: rest => event_handler event rest
  end.

Definition submit (form : Node) : M () :=
  match form with
  | element _ attrs _ => default (ret ()) (event_handler "onSubmit" attrs)
  | _ => ret ()
  end.

(** *** Vocabulary of the properties *)

(** The kinds the dispatch recognises. *)
Definition kinds : list string :=
  ["text"; "email"; "password"; "date"; "textarea"; "select"; "radio";
   "checkbox"; "file"; "rating"].

(** How many stars a rating field asks for: five without [max], and [M] for
    [max = M], an integer from one up to the largest array length. *)
Definition star_count (field : Field) (M : nat) : Prop :=
  (max field = undefined ∧ M = 5%nat)
  ∨ (max field = of_nat M ∧ (1 ≤ M)%nat ∧ (Z.of_nat M < 2 ^ 32)%Z).

(** The glyph of the star at index [i] when the field's value is [v]. *)
Definition star_glyph `{Conversions} (v : Value) (i : nat) : string :=
  if less_equal (succ_index i) (logical_or v (of_Z 0)) then "★" else "☆".

(** Two worlds agree when they hold the same value-set and error-set; the
    mounted names and the invocation log are free. *)
Definition agree (w1 w2 : World) : Prop :=
  formValues w1 = formValues w2 ∧ formErrors w1 = formErrors w2.

(** A computation only reads the store when it leaves the value-set and the
    error-set alone and its result is the same from worlds that agree. *)
Definition reader {A} (m : M A) : Prop :=
  (∀ w, agree w (fst (m w)))
  ∧ (∀ w1 w2, agree w1 w2 → snd (m w1) = snd (m w2)).

(** *** More vocabulary: what the branches return and how to read it *)

(** The world after [register(name)]. *)
Definition mount (name : string) (w : World) : World :=
  fst (register name w).

(** The entry [radio_option] returns for an option. *)
Definition radio_entry (field : Field) (option : Opt.t) : Node :=
  element "label"
    [attr "key" (Opt.value option);
     attr "className" (str "block text-sm font-medium text-gray-900")]
    [element "input"
       [attr "type" (str "radio");
        attr "value" (Opt.value option);
        spread {| bound_to := name field |};
        style [("marginRight", "5px")]]
       [];
     expr (Opt.label option)].

(** The star [star] returns at index [i] when the field's value is
    [current]. *)
Definition star_node `{Conversions} (field : Field) (current : Value)
    (i : nat) : Node :=
  element "label"
    [attr "key" (number (succ_index i));
     attr "className" (str "cursor-pointer")]
    [element "input"
       [attr "type" (str "radio");
        attr "value" (number (succ_index i));
        spread {| bound_to := name field |};
        attr "className" (str "hidden")]
       [];
     element "span"
       [attr "className" (str "text-2xl text-yellow-400")]
       [text (star_glyph current i)]].



(** The name a control is registered under: the one of the registration
    spread into its attributes. *)
Fixpoint registration (attrs : list Attr) : option string :=
  match attrs with
  | [] => None
  | spread r :: _ => Some (bound_to r)
  | _ :: rest => registration rest
  end.

(** The names the interactive controls of a tree are registered under, in
    document order ([None] for a control without a registration). *)
Definition control_names (n : Node) : list (option string) :=
  map (λ c, match c with
            | element _ attrs _ => registration attrs
            | _ => None
            end) (controls n).

(** The [id] of each interactive control of a tree, in document order
    ([None] for a control without an [id]). *)
Definition control_ids (n : Node) : list (option Value) :=
  map (λ c, match c with
            | element _ attrs _ => attribute "id" attrs
            | _ => None
            end) (controls n).

(** The [id] the dispatch gives the controls of a field: the field's name,
    except for the inputs of a radio group and of a rating, which get
    none. *)
Definition control_id (field : Field) : option Value :=
  if has_type field "radio" || has_type field "rating" then None
  else Some (str (name field)).

(** The values painted directly inside the [<label>] elements of a tree, in
    document order. *)
Definition direct_values (children : list Node) : list Value :=
  flat_map (λ c, match c with
                 | expr v => [v]
                 | _ => []
                 end) children.

Fixpoint label_texts (n : Node) : list Value :=
  match n with
  | expr _ => []
  | array items => flat_map label_texts items
  | element tag attrs children =>
      (if String.eqb tag "label" then direct_values children else [])
      ++ flat_map label_texts children
  end.

(** How many interactive controls the dispatch asks for: one for the kinds
    with a single control, one per option for [radio], one per slot of
    [Array(max || 5)] for [rating], none for any other type. *)
Definition control_count (field : Field) : nat :=
  if includes ["text"; "email"; "password"; "date"] (type field)
     || has_type field "textarea" || has_type field "select"
     || has_type field "checkbox" || has_type field "file"
  then 1%nat
  else if has_type field "radio" then length (default [] (options field))
  else if has_type field "rating"
  then match Array (logical_or (max field) (of_Z 5)) with
       | inr slots => length slots
       | inl _ => 0%nat
       end
  else 0%nat.

(** The error display: a [<div>] of the error class around the message. *)
Definition error_text (tag : string) (attrs : list Attr)
    (children : list Node) : option Value :=
  match children, attrs with
  | [expr m], [attr k c] =>
      if String.eqb tag "div" && String.eqb k "className"
         && strict_equal c (str "mt-1 text-sm text-red-500")
      then Some m else None
  | _, _ => None
  end.

(** The error messages a tree displays, in document order. *)
Fixpoint error_messages (n : Node) : list Value :=
  match n with
  | expr _ => []
  | array items => flat_map error_messages items
  | element tag attrs children =>
      match error_text tag attrs children with
      | Some m => [m]
      | None => flat_map error_messages children
      end
  end.

(** What [errors[name].message] reads for the fields that pass
    [shouldRender] and whose name reads truthy in the error-set, in the
    order of the fields: the message of the entry; and, for a name without
    an entry that [Object.prototype] defines, [undefined]. *)
Definition visible_errors `{Conversions} (watchedValues : gmap string Value)
    (errors : gmap string FieldError) (fields : list Field) : list Value :=
  flat_map (λ field,
              if shouldRender watchedValues field
              then match errors !! name field with
                   | Some e => [message e]
                   | None => if decide (name field ∈ map fst Object_prototype)
                             then [undefined] else []
                   end
              else []) fields.


(** A tree without its [className] attributes. *)
Definition cosmetic (a : Attr) : bool :=
  match a with
  | attr k _ => String.eqb k "className"
  | _ => false
  end.

Fixpoint erase (n : Node) : Node :=
  match n with
  | expr v => expr v
  | array items => array (map erase items)
  | element tag attrs children =>
      element tag (List.filter (λ a, negb (cosmetic a)) attrs)
        (map erase children)
  end.

Definition erased_by {A} (er : A → A) (r : Exception + A) : Exception + A :=
  match r with
  | inr a => inr (er a)
  | inl e => inl e
  end.

Definition erased : Exception + Node → Exception + Node := erased_by erase.

(** Two computations are alike when, from any world, they end in the same
    world and with the same result once erased. *)
Definition alike {A} (er : A → A) (m1 m2 : M A) : Prop :=
  ∀ w, fst (m1 w) = fst (m2 w)
       ∧ erased_by er (snd (m1 w)) = erased_by er (snd (m2 w)).

(** The names of the fields that pass [shouldRender]. *)
Definition visible_names `{Conversions} (watchedValues : gmap string Value)
    (fields : list Field) : gset string :=
  list_to_set
    (map name (List.filter (shouldRender watchedValues) fields)).

(** A computation is framed by a set of names when it leaves the value-set,
    the error-set and the invocation log alone, forgets no mounted name, and
    mounts names of the set only. *)
Definition framed {A} (names : gset string) (m : M A) : Prop :=
  ∀ w, formValues (fst (m w)) = formValues w
       ∧ formErrors (fst (m w)) = formErrors w
       ∧ invoked (fst (m w)) = invoked w
       ∧ mounted w ⊆ mounted (fst (m w))
       ∧ mounted (fst (m w)) ⊆ mounted w ∪ names.

(** How many of [M] stars a value that converts to the number [x] fills: the
    integer part of [x], kept between zero and [M]. *)
Definition filled_count (x : Number) (M : nat) : nat :=
  match x with
  | NaN => 0%nat
  | Infinity true => 0%nat
  | Infinity false => M
  | Finite q => Z.to_nat (Z.min (Z.max (Qfloor q) 0) (Z.of_nat M))
  end.

(** The glyphs of [M] stars of which the first [k] are filled. *)
Definition filled_prefix (k M : nat) : list Value :=
  replicate k (str "★") ++ replicate (M - k) (str "☆").

End Form.

(** ** Sample forms *)

Module Sample.
Import JS Form.

(** The two fields of the specification's country scenario. *)
Definition country : Field :=
  {| name := "country"; label := str "Country"; type := str "select";
     placeholder := undefined;
     options := Some [ {| Opt.value := str "us"; Opt.label := str "US" |};
                       {| Opt.value := str "other";
                          Opt.label := str "Other" |} ];
     conditional := None; max := undefined |}.

Definition customCountry : Field :=
  {| name := "customCountry"; label := str "Specify Country";
     type := str "text"; placeholder := undefined; options := None;
     conditional := Some {| Cond.field := str "country";
                            Cond.value := str "other" |};
     max := undefined |}.

(** A field that waits for the number one. *)
Definition onOne : Field :=
  {| name := "extra"; label := str "Extra"; type := str "text";
     placeholder := undefined; options := None;
     conditional := Some {| Cond.field := str "count";
                            Cond.value := of_Z 1 |};
     max := undefined |}.

(** A conditional on a name that [Object.prototype] defines, its [value]
    key left out. *)
Definition onConstructor : Field :=
  {| name := "details"; label := str "Details"; type := str "text";
     placeholder := undefined; options := None;
     conditional := Some {| Cond.field := str "constructor";
                            Cond.value := undefined |};
     max := undefined |}.

(** A conditional whose [value] key was left out. *)
Definition noTrigger : Field :=
  {| name := "details"; label := str "Details"; type := str "text";
     placeholder := undefined; options := None;
     conditional := Some {| Cond.field := str "country";
                            Cond.value := undefined |};
     max := undefined |}.

Definition email : Field :=
  {| name := "email"; label := str "Email Address"; type := str "email";
     placeholder := str "your.email@example.com"; options := None;
     conditional := None; max := undefined |}.

Definition gender : Field :=
  {| name := "gender"; label := str "Gender"; type := str "radio";
     placeholder := undefined;
     options := Some [ {| Opt.value := str "male"; Opt.label := str "Male" |};
                       {| Opt.value := str "female";
                          Opt.label := str "Female" |};
                       {| Opt.value := str "other";
                          Opt.label := str "Other" |} ];
     conditional := None; max := undefined |}.

(** The rating of the specification's scenario: three stars. *)
Definition satisfaction : Field :=
  {| name := "satisfaction"; label := str "Rate your satisfaction";
     type := str "rating"; placeholder := undefined; options := None;
     conditional := None; max := of_nat 3 |}.

(** A field whose type is a typo. *)
Definition colour : Field :=
  {| name := "colour"; label := str "Colour"; type := str "colr";
     placeholder := undefined; options := None; conditional := None;
     max := undefined |}.

(** A schema in the manner of the README: [email] is required and has to
    hold an at sign. *)
Fixpoint has_at (s : string) : bool :=
  match s with
  | EmptyString => false
  | String c s' =>
      if Nat.eqb (Ascii.nat_of_ascii c) 64 then true else has_at s'
  end.

Definition emailSchema : Schema :=
  λ data,
    match data !! "email" with
    | Some (str s) =>
        if has_at s then ∅
        else {[ "email" := {| message := str "Please enter a valid email" |} ]}
    | _ => {[ "email" := {| message := str "Email is required" |} ]}
    end.

Definition props (fields : list Field) : Props :=
  {| fields := fields; onSubmit := callback 0; schema := emailSchema;
     className := "";
     inputClassName := ""; labelClassName := ""; selectClassName := "";
     textareaClassName := ""; checkboxClassName := "";
     checkboxInputClassName := ""; radioWrapperClassName := "";
     fileInputClassName := ""; ratingClassName := "";
     submitButtonClassName := "" |}.

Definition contact : Props :=
  props [email; country; customCountry; satisfaction].

(** A world with the given value-set and error-set, nothing mounted and
    nothing invoked. *)
Definition world (values : gmap string Value)
    (errors : gmap string FieldError) : World :=
  {| formValues := values; formErrors := errors; mounted := ∅;
     invoked := [] |}.

(** The same store after an earlier pass and an earlier submission. *)
Definition later (values : gmap string Value)
    (errors : gmap string FieldError) : World :=
  {| formValues := values; formErrors := errors;
     mounted := {[ "email"; "country" ]};
     invoked := [ (callback 0, {[ "email" := str "ada@example.org" ]}) ] |}.

Definition badEmail : gmap string Value :=
  {[ "email" := str "not-an-email" ]}.

Definition goodEmail : gmap string Value :=
  {[ "email" := str "ada@example.org"; "country" := str "us";
     "customCountry" := str "Atlantis" ]}.

(** Whether a pass returned, and the form it returned. *)
Definition returned {A} (r : Exception + A) : bool :=
  match r with
  | inr _ => true
  | inl _ => false
  end.

Definition rendered `{Conversions} (p : Props) (w : World) : Node :=
  match snd (ReusableForm p w) with
  | inr form => form
  | inl _ => expr null
  end.

(** The form of the contact sample, rendered from an empty store. *)
Definition contactForm : Node :=
  rendered (H := Decimal.conversions) contact (world ∅ ∅).

(** A schema that asks for the custom country whether it is shown or not,
    and reports an address without an at sign with an empty message. *)
Definition strictSchema : Schema :=
  λ data,
    (match data !! "email" with
     | Some (str s) =>
         if has_at s then ∅ else {[ "email" := {| message := str "" |} ]}
     | _ => {[ "email" := {| message := str "" |} ]}
     end)
    ∪ (match data !! "customCountry" with
       | Some (str _) => ∅
       | _ => {[ "customCountry" :=
                   {| message := str "Please specify your country" |} ]}
       end).

Definition strict : Props :=
  {| fields := [email; country; customCountry]; onSubmit := callback 0;
     schema := strictSchema; className := "";
     inputClassName := ""; labelClassName := ""; selectClassName := "";
     textareaClassName := ""; checkboxClassName := "";
     checkboxInputClassName := ""; radioWrapperClassName := "";
     fileInputClassName := ""; ratingClassName := "";
     submitButtonClassName := "" |}.

Definition strictForm : Node :=
  rendered (H := Decimal.conversions) strict (world ∅ ∅).

(** More samples: a checkbox, a select without options, ratings with an odd
    [max], a conditional on [NaN], and props with class names. *)
Definition terms : Field :=
  {| name := "terms"; label := str "I agree to the terms and conditions";
     type := str "checkbox"; placeholder := undefined; options := None;
     conditional := None; max := undefined |}.

Definition broken : Field :=
  {| name := "plan"; label := str "Plan"; type := str "select";
     placeholder := undefined; options := None; conditional := None;
     max := undefined |}.

Definition rated (max : Value) : Field :=
  {| name := "satisfaction"; label := str "Rate your satisfaction";
     type := str "rating"; placeholder := undefined; options := None;
     conditional := None; max := max |}.

Definition onNaN : Field :=
  {| name := "extra"; label := str "Extra"; type := str "text";
     placeholder := undefined; options := None;
     conditional := Some {| Cond.field := str "count";
                            Cond.value := number NaN |};
     max := undefined |}.

Definition styled (fields : list Field) : Props :=
  {| fields := fields; onSubmit := callback 0; schema := emailSchema;
     className := "max-w-md mx-auto p-6";
     inputClassName := "border border-gray-300 rounded px-3 py-2";
     labelClassName := "text-gray-700 mb-2 block";
     selectClassName := "custom-select-style";
     textareaClassName := "custom-textarea-style";
     checkboxClassName := "custom-checkbox-wrapper";
     checkboxInputClassName := "custom-checkbox-input";
     radioWrapperClassName := "custom-radio-wrapper";
     fileInputClassName := "custom-file-input";
     ratingClassName := "custom-rating-wrapper";
     submitButtonClassName := "bg-blue-500 text-white px-4 py-2 rounded" |}.

(** Failures for the email field, which is shown, and for the custom
    country, which is hidden while the country is unset. *)
Definition twoErrors : gmap string FieldError :=
  {[ "email" := {| message := str "Email is required" |};
     "customCountry" := {| message := str "Please specify your country" |} ]}.

(** A field under a name that [Object.prototype] defines. *)
Definition inheritedName : Field :=
  {| name := "constructor"; label := str "Constructor"; type := str "text";
     placeholder := undefined; options := None; conditional := None;
     max := undefined |}.

(** The block of a field, when it returns. *)
Definition block `{Conversions} (p : Props) (values : gmap string Value)
    (errors : gmap string FieldError) (field : Field) : Node :=
  match snd (renderField p values errors field (world values errors)) with
  | inr b => b
  | inl _ => expr null
  end.

End Sample.

(** ** Facts about the value semantics *)

Module JSFacts.
Import JS.

Lemma Qeq_bool_Qc (p q : Qc) : Qeq_bool p q = true ↔ p = q.
Proof.
  rewrite Qeq_bool_iff. split.
  - apply Qc_is_canon.
  - intros ->. reflexivity.
Qed.

Lemma number_equal_spec (a b : Number) :
  number_equal a b = true ↔ a = b ∧ a ≠ NaN.
Proof.
  destruct a as [|s|p], b as [|t|q]; simpl;
    try (split; [discriminate | intros [E N]; congruence]).
  - destruct s, t; simpl; split; try discriminate; try done;
      intros [E _]; discriminate.
  - rewrite Qeq_bool_Qc. split.
    + intros ->. done.
    + intros [E _]. congruence.
Qed.

(** [strict_equal] computes [StrictlyEqual]. *)
Lemma strict_equal_spec (a b : Value) :
  strict_equal a b = true ↔ StrictlyEqual a b.
Proof.
  split.
  - destruct a, b; simpl; try discriminate; intros E.
    + constructor.
    + constructor.
    + apply Bool.eqb_prop in E as ->. constructor.
    + apply number_equal_spec in E as [-> N]. by constructor.
    + apply String.eqb_eq in E as ->. constructor.
    + apply Nat.eqb_eq in E as ->. constructor.
  - intros []; simpl.
    + done.
    + done.
    + apply Bool.eqb_reflx.
    + by apply number_equal_spec.
    + apply String.eqb_refl.
    + apply Nat.eqb_refl.
Qed.

(** No conversion: values of different types are never [===]. *)
Lemma strict_equal_kind (a b : Value) :
  kind a ≠ kind b → strict_equal a b = false.
Proof. destruct a, b; simpl; congruence. Qed.

Lemma strict_equal_undefined (v : Value) :
  strict_equal undefined v = true ↔ v = undefined.
Proof. destruct v; simpl; split; congruence. Qed.

(** A value compared with [===] against a string literal, on either side. *)
Lemma strict_equal_str (v : Value) (s : string) :
  strict_equal v (str s) = true ↔ v = str s.
Proof.
  destruct v; simpl; split; try congruence.
  - intros E. apply String.eqb_eq in E. congruence.
  - intros [= ->]. apply String.eqb_refl.
Qed.

Lemma strict_equal_str_l (v : Value) (s : string) :
  strict_equal (str s) v = true ↔ v = str s.
Proof.
  destruct v; simpl; split; try congruence.
  - intros E. apply String.eqb_eq in E. congruence.
  - intros [= ->]. apply String.eqb_refl.
Qed.

Lemma includes_false (l : list string) (v : Value) :
  (∀ k, k ∈ l → v ≠ str k) → includes l v = false.
Proof.
  intros N. apply not_true_is_false. unfold includes.
  rewrite existsb_exists. intros (k & Hin & E).
  apply strict_equal_str_l in E. apply (N k); [|done].
  by apply list_elem_of_In.
Qed.

(** A falsy value converts to [NaN] or to zero. *)
Lemma to_number_falsy `{Conversions} (v : Value) :
  truthy v = false → to_number v = NaN ∨ to_number v = Finite (Qc_of_Z 0).
Proof.
  destruct v as [| |b|n|s|t r]; simpl; try discriminate; auto.
  - intros ->. auto.
  - destruct n as [|s|q]; simpl; try discriminate; auto.
    intros E. apply negb_false_iff in E.
    change (Qeq_bool q 0%Qc = true) in E. apply Qeq_bool_Qc in E. subst.
    right. do 2 f_equal. by apply Qc_is_canon.
  - intros E. apply negb_false_iff, String.eqb_eq in E. subst.
    right. apply StringToNumber_empty.
Qed.

Lemma Qc_of_Z_le (a b : Z) : Qle_bool (Qc_of_Z a) (Qc_of_Z b) = Z.leb a b.
Proof. unfold Qle_bool, Qc_of_Z; simpl. by rewrite !Z.mul_1_r. Qed.

(** Zero is below no positive integer. *)
Lemma number_le_pos_zero (k : Z) :
  (0 < k)%Z → number_le (Finite (Qc_of_Z k)) (Finite (Qc_of_Z 0)) = false.
Proof.
  intros Hk. unfold number_le. rewrite Qc_of_Z_le. by apply Z.leb_gt.
Qed.

(** The default [|| 0] does not move a comparison against a positive
    integer: a falsy operand compares as [false] with and without it. *)
Lemma less_equal_or_zero `{Conversions} (k : Z) (v : Value) :
  (0 < k)%Z →
  less_equal (Finite (Qc_of_Z k)) (logical_or v (of_Z 0))
  = less_equal (Finite (Qc_of_Z k)) v.
Proof.
  intros Hk. unfold logical_or. destruct (truthy v) eqn:T; [done|].
  unfold less_equal. change (to_number (of_Z 0)) with (Finite (Qc_of_Z 0)).
  destruct (to_number_falsy v T) as [-> | ->].
  - by rewrite number_le_pos_zero.
  - reflexivity.
Qed.

Lemma truthy_of_Z (z : Z) : z ≠ 0%Z → truthy (of_Z z) = true.
Proof.
  intros Hz. unfold of_Z, truthy. apply negb_true_iff, not_true_is_false.
  intros E. apply Qeq_bool_iff in E. unfold Qeq in E. simpl in E. lia.
Qed.

Lemma Array_of_Z (z : Z) :
  (0 ≤ z < 2 ^ 32)%Z →
  Array (of_Z z) = inr (replicate (Z.to_nat z) undefined).
Proof. intros Hz. unfold Array, of_Z. simpl. by rewrite decide_True. Qed.


(** The table of inherited properties, read by name. *)
Lemma assoc_None (key : string) (l : list (string * Value)) :
  assoc key l = None ↔ key ∉ map fst l.
Proof.
  induction l as [|[k v] l IH]; simpl.
  - split; [intros _; apply not_elem_of_nil | done].
  - rewrite not_elem_of_cons. destruct (String.eqb_spec k key) as [->|Hk].
    + split; [discriminate | intros [Hn _]; done].
    + rewrite IH. split; [intros Hn; split; [congruence | done] | tauto].
Qed.

Lemma assoc_Some (key : string) (l : list (string * Value)) (p : Value) :
  assoc key l = Some p → (key, p) ∈ l.
Proof.
  induction l as [|[k v] l IH]; simpl; [discriminate|].
  destruct (String.eqb_spec k key) as [->|Hk].
  - intros [= ->]. by left.
  - intros E. right. by apply IH.
Qed.

Lemma inherited_None (key : string) :
  inherited key = None ↔ key ∉ map fst Object_prototype.
Proof. apply assoc_None. Qed.

Lemma inherited_is_Some (key : string) :
  key ∈ map fst Object_prototype → ∃ p, inherited key = Some p.
Proof.
  intros Hin. destruct (inherited key) as [p|] eqn:E; [by exists p|].
  by apply inherited_None in E.
Qed.

Lemma inherited_decide {A} (key : string) (a b : A) :
  (if decide (key ∈ map fst Object_prototype) then a else b)
  = match inherited key with Some _ => a | None => b end.
Proof.
  destruct (inherited key) as [p|] eqn:E.
  - rewrite decide_True; [done|]. destruct (decide (key ∈ map fst Object_prototype)); [done|].
    apply inherited_None in n. congruence.
  - rewrite decide_False; [done|]. by apply inherited_None.
Qed.

(** What a plain object inherits is an object. *)
Lemma Object_prototype_objects :
  Forall (λ kv, kind (snd kv) = Object) Object_prototype.
Proof. unfold Object_prototype. repeat constructor. Qed.

Lemma inherited_object (key : string) (p : Value) :
  inherited key = Some p → (key, p) ∈ Object_prototype ∧ kind p = Object.
Proof.
  intros E. apply assoc_Some in E. split; [done|].
  by apply (proj1 (Forall_forall _ _) Object_prototype_objects (key, p)).
Qed.

End JSFacts.

(** ** The visibility predicate *)

Module Visibility.
Import JS JSFacts Form Sample.

Section Visibility.
Context `{Conversions}.

(** The country scenario of the specification. *)
Example customCountry_hidden :
  shouldRender {[ "country" := str "us" ]} customCountry = false.
Proof. reflexivity. Qed.

Example customCountry_shown :
  shouldRender {[ "country" := str "other" ]} customCountry = true.
Proof. reflexivity. Qed.

(** The number one is matched by the number one, not by the string. *)
Example one_is_not_the_string_one :
  shouldRender {[ "count" := str "1" ]} onOne = false
  ∧ shouldRender {[ "count" := of_Z 1 ]} onOne = true.
Proof. split; reflexivity. Qed.

(** C1.  For a field whose conditional is
    [{field: D, value: V}] (the specification's [dependsOnField] and
    [equals]) and any value-set, [shouldRender] answers true exactly when
    the value read under [D] is strictly equal to [V], without conversion.
    The value read is the value-set's entry for [D] when it has one; without
    an entry it is [undefined], except under the names [Object.prototype]
    defines, which read a built-in object. *)
Theorem shouldRender_reads_property
    (watchedValues : gmap string Value) (field : Field) (D V : Value) :
  conditional field = Some {| Cond.field := D; Cond.value := V |} →
  (∀ v, watchedValues !! to_string D = Some v →
     (shouldRender watchedValues field = true ↔ StrictlyEqual v V)
     ∧ (kind v ≠ kind V → shouldRender watchedValues field = false))
  ∧ (watchedValues !! to_string D = None →
     to_string D ∉ map fst Object_prototype →
     (shouldRender watchedValues field = true ↔ V = undefined))
  ∧ (watchedValues !! to_string D = None →
     to_string D ∈ map fst Object_prototype →
     ∃ p, (to_string D, p) ∈ Object_prototype
          ∧ kind p = Object
          ∧ (shouldRender watchedValues field = true ↔ StrictlyEqual p V)).
Proof.
  intros Hc. unfold shouldRender, get. rewrite Hc. simpl.
  split; [|split].
  - intros v ->. split; [apply strict_equal_spec | apply strict_equal_kind].
  - intros -> Hn. apply inherited_None in Hn. rewrite Hn. simpl.
    apply strict_equal_undefined.
  - intros -> Hin. destruct (inherited_is_Some _ Hin) as [p Hp].
    rewrite Hp. simpl. destruct (inherited_object _ _ Hp) as [Hm Hk].
    exists p. split; [done|]. split; [done|]. apply strict_equal_spec.
Qed.

(** C4.  A field without a conditional is rendered whatever the value-set
    holds. *)
Theorem shouldRender_without_conditional
    (watchedValues : gmap string Value) (field : Field) :
  conditional field = None → shouldRender watchedValues field = true.
Proof. intros Hc. unfold shouldRender. by rewrite Hc. Qed.


End Visibility.

Lemma shouldRender_reads_property_witness :
  (shouldRender (H := Decimal.conversions) {[ "count" := of_Z 1 ]} onOne
   = true
   ↔ StrictlyEqual (of_Z 1) (of_Z 1))
  ∧ shouldRender (H := Decimal.conversions) {[ "count" := str "1" ]} onOne
    = false
  ∧ (shouldRender (H := Decimal.conversions) ∅ noTrigger = true
     ↔ undefined = undefined)
  ∧ ∃ p, ("constructor", p) ∈ Object_prototype
         ∧ kind p = Object
         ∧ (shouldRender (H := Decimal.conversions) ∅ onConstructor = true
            ↔ StrictlyEqual p undefined).
Proof.
  split; [|split; [|split]].
  - destruct (shouldRender_reads_property (H := Decimal.conversions)
                {[ "count" := of_Z 1 ]} onOne (str "count") (of_Z 1) eq_refl)
      as (Hown & _ & _).
    apply (Hown (of_Z 1)). reflexivity.
  - destruct (shouldRender_reads_property (H := Decimal.conversions)
                {[ "count" := str "1" ]} onOne (str "count") (of_Z 1) eq_refl)
      as (Hown & _ & _).
    apply (Hown (str "1")); [reflexivity | discriminate].
  - destruct (shouldRender_reads_property (H := Decimal.conversions)
                ∅ noTrigger (str "country") undefined eq_refl)
      as (_ & Hnone & _).
    apply Hnone; [reflexivity|].
    intros Hin. unfold Object_prototype in Hin. simpl in Hin.
    repeat (apply elem_of_cons in Hin as [Hin | Hin]; [discriminate Hin|]).
    by apply elem_of_nil in Hin.
  - destruct (shouldRender_reads_property (H := Decimal.conversions)
                ∅ onConstructor (str "constructor") undefined eq_refl)
      as (_ & _ & Hinh).
    apply Hinh; [reflexivity | left].
Defined.

(** C1, as the specification words it, fails on a name that
    [Object.prototype] defines: over the empty value-set the entry for
    ["constructor"] is unset, hence [undefined] and strictly equal to a
    trigger left out, and yet [shouldRender] answers false, for the code
    reads the inherited function. *)
Lemma shouldRender_inherited_name_counterexample :
  conditional onConstructor
  = Some {| Cond.field := str "constructor"; Cond.value := undefined |}
  ∧ ¬ (shouldRender (H := Decimal.conversions) ∅ onConstructor = true
       ↔ StrictlyEqual
           (default undefined ((∅ : gmap string Value) !! "constructor"))
           undefined).
Proof.
  split; [reflexivity|]. intros [_ Hf].
  assert (shouldRender (H := Decimal.conversions) ∅ onConstructor = false)
    as Hs by reflexivity.
  rewrite Hf in Hs; [discriminate Hs | constructor].
Qed.

Lemma shouldRender_without_conditional_witness :
  shouldRender (H := Decimal.conversions)
    {[ "country" := str "other" ]} country = true.
Proof.
  apply (shouldRender_without_conditional (H := Decimal.conversions)).
  reflexivity.
Defined.


End Visibility.

(** ** Render passes and the store *)

Module PassFacts.
Import JS Form.

Lemma agree_refl w : agree w w.
Proof. by split. Qed.

Lemma agree_sym w1 w2 : agree w1 w2 → agree w2 w1.
Proof. intros [? ?]. by split. Qed.

Lemma agree_trans w1 w2 w3 : agree w1 w2 → agree w2 w3 → agree w1 w3.
Proof. intros [? ?] [? ?]. split; congruence. Qed.

Create HintDb reader.

Lemma reader_ret {A} (a : A) : reader (ret a).
Proof. split; intros; [apply agree_refl | done]. Qed.

Lemma reader_lift {A} (r : Exception + A) : reader (lift r).
Proof. split; intros; [apply agree_refl | done]. Qed.

Lemma reader_throw {A} (e : Exception) : reader (throw (A := A) e).
Proof. apply reader_lift. Qed.

Lemma reader_register name : reader (register name).
Proof. split; intros; [by split | done]. Qed.

Lemma reader_watch name : reader (watch name).
Proof.
  split; [intros; apply agree_refl |].
  intros w1 w2 [Hv _]. unfold watch; simpl. by rewrite Hv.
Qed.

Lemma reader_watch_all : reader watch_all.
Proof.
  split; [intros; apply agree_refl |].
  intros w1 w2 [Hv _]. unfold watch_all; simpl. by rewrite Hv.
Qed.

Lemma reader_formState_errors : reader formState_errors.
Proof.
  split; [intros; apply agree_refl |].
  intros w1 w2 [_ He]. unfold formState_errors; simpl. by rewrite He.
Qed.

Lemma reader_bind {A B} (m : M A) (k : A → M B) :
  reader m → (∀ a, reader (k a)) → reader (bind m k).
Proof.
  intros [Hm1 Hm2] Hk. split.
  - intros w. unfold bind. specialize (Hm1 w).
    destruct (m w) as [w' [e|a]]; simpl in *; [done|].
    eapply agree_trans; [exact Hm1 | apply Hk].
  - intros w1 w2 Hw. unfold bind.
    pose proof (Hm1 w1) as H1. pose proof (Hm1 w2) as H2.
    specialize (Hm2 w1 w2 Hw).
    destruct (m w1) as [w1' r1], (m w2) as [w2' r2]; simpl in *; subst r2.
    destruct r1 as [e|a]; [done|]. apply Hk.
    eapply agree_trans; [apply agree_sym, H1 |].
    eapply agree_trans; [exact Hw | exact H2].
Qed.

Lemma reader_mapM {A B} (f : A → M B) (l : list A) :
  (∀ a, reader (f a)) → reader (mapM f l).
Proof.
  intros Hf. induction l as [|a l IH]; simpl.
  - apply reader_ret.
  - apply reader_bind; [apply Hf|]. intros b.
    apply reader_bind; [apply IH|]. intros bs. apply reader_ret.
Qed.

Lemma reader_whenM (cond : bool) (m : M Node) :
  reader m → reader (whenM cond m).
Proof. intros Hm. destruct cond; simpl; [done | apply reader_ret]. Qed.

Lemma reader_options_map {B} (f : Opt.t → M B) field :
  (∀ o, reader (f o)) → reader (options_map f field).
Proof.
  intros Hf. unfold options_map.
  destruct (options field); [by apply reader_mapM | apply reader_throw].
Qed.

#[export] Hint Resolve reader_ret reader_lift reader_throw reader_register
  reader_watch reader_watch_all reader_formState_errors reader_whenM
  reader_options_map reader_mapM : reader.
#[export] Hint Extern 2 (reader (bind _ _)) =>
  apply reader_bind; [ | intros ?] : reader.

(** How a pass over a list relates its items to the elements. *)
Lemma mapM_lookup {A B} (f : A → M B) (l : list A) w w' (bs : list B) :
  mapM f l w = (w', inr bs) →
  length bs = length l
  ∧ ∀ i a, l !! i = Some a →
      ∃ b wa wb, bs !! i = Some b ∧ f a wa = (wb, inr b).
Proof.
  revert w w' bs. induction l as [|a l IH]; intros w w' bs; simpl.
  - intros [= <- <-]. split; [done|]. intros i a0 Hi. done.
  - unfold bind at 1. destruct (f a w) as [w1 [e|b]] eqn:Ea; [done|].
    unfold bind at 1. destruct (mapM f l w1) as [w2 [e|bs']] eqn:El; [done|].
    intros [= <- <-]. destruct (IH _ _ _ El) as [Hlen Hnth].
    split; [simpl; congruence|].
    intros [|i] a0 Hi; simpl in *.
    + injection Hi as <-. by exists b, w, w1.
    + by apply Hnth.
Qed.

(** A callback that always returns, with a result that does not depend on
    the world as long as an invariant holds, maps like a function. *)
Lemma mapM_map {A B} (f : A → M B) (g : A → B) (I : World → Prop)
    (l : list A) :
  (∀ a w, I w → ∃ w', f a w = (w', inr (g a)) ∧ I w') →
  ∀ w, I w → ∃ w', mapM f l w = (w', inr (map g l)) ∧ I w'.
Proof.
  intros Hf. induction l as [|a l IH]; intros w Hw; simpl.
  - by exists w.
  - destruct (Hf a w Hw) as (w1 & Ea & H1).
    destruct (IH w1 H1) as (w2 & El & H2).
    exists w2. unfold bind. by rewrite Ea, El.
Qed.

Lemma bind_result_ne {A B} (m : M A) (k : A → M B) (x : B) w :
  (∀ a w', snd (k a w') ≠ inr x) → snd (bind m k w) ≠ inr x.
Proof.
  intros Hk. unfold bind. destruct (m w) as [w' [e|a]]; simpl; [done|].
  apply Hk.
Qed.

End PassFacts.

(** ** The render pass reads the store and nothing else *)

Module Purity.
Import JS Form PassFacts Sample.

Section Purity.
Context `{Conversions}.
Variable props : Props.

Ltac reads := unfold radio_option, star; eauto 20 with reader.

Lemma reader_input_branch field : reader (input_branch props field).
Proof. unfold input_branch. reads. Qed.

Lemma reader_textarea_branch field : reader (textarea_branch props field).
Proof. unfold textarea_branch. reads. Qed.

Lemma reader_select_branch field : reader (select_branch props field).
Proof. unfold select_branch. reads. Qed.

Lemma reader_radio_branch field : reader (radio_branch props field).
Proof.
  unfold radio_branch. apply reader_whenM, reader_bind.
  - apply reader_options_map. intros o. reads.
  - intros entries. reads.
Qed.

Lemma reader_checkbox_branch field : reader (checkbox_branch props field).
Proof. unfold checkbox_branch. reads. Qed.

Lemma reader_file_branch field : reader (file_branch props field).
Proof. unfold file_branch. reads. Qed.

Lemma reader_star field i : reader (star field i).
Proof. reads. Qed.

Lemma reader_rating_branch field : reader (rating_branch props field).
Proof.
  unfold rating_branch. apply reader_whenM, reader_bind; [reads|].
  intros slots. apply reader_bind.
  - apply reader_mapM, reader_star.
  - intros stars. reads.
Qed.

Lemma reader_renderField watchedValues errors field :
  reader (renderField props watchedValues errors field).
Proof.
  unfold renderField.
  destruct (negb (shouldRender watchedValues field)); [reads|].
  repeat (apply reader_bind;
          [first [ apply reader_input_branch | apply reader_textarea_branch
                 | apply reader_select_branch | apply reader_radio_branch
                 | apply reader_checkbox_branch | apply reader_file_branch
                 | apply reader_rating_branch ]
          | intros ?]).
  apply reader_ret.
Qed.

Lemma reader_ReusableForm : reader (ReusableForm props).
Proof.
  unfold ReusableForm.
  apply reader_bind; [reads|]. intros errors.
  apply reader_bind; [reads|]. intros watchedValues.
  apply reader_bind; [|intros items; reads].
  apply reader_mapM, reader_renderField.
Qed.

(** C9.  A render pass is a function of the field list (with the other
    props), the value-set and the error-set: from two worlds that hold the
    same value-set and error-set, whatever else differs in them, it produces
    the same output, and rendering again right after a pass produces the
    output of that pass. *)
Theorem render_deterministic (w1 w2 : World) :
  formValues w1 = formValues w2 →
  formErrors w1 = formErrors w2 →
  snd (ReusableForm props w1) = snd (ReusableForm props w2)
  ∧ snd (ReusableForm props (fst (ReusableForm props w1)))
    = snd (ReusableForm props w1).
Proof.
  intros Hv He. destruct reader_ReusableForm as [Hstable Hsame]. split.
  - apply Hsame. by split.
  - apply Hsame, agree_sym, Hstable.
Qed.

End Purity.

Lemma render_deterministic_witness :
  snd (ReusableForm (H := Decimal.conversions) contact (world goodEmail ∅))
  = snd (ReusableForm (H := Decimal.conversions) contact (later goodEmail ∅))
  ∧ snd (ReusableForm (H := Decimal.conversions) contact
           (fst (ReusableForm (H := Decimal.conversions) contact
                   (world goodEmail ∅))))
    = snd (ReusableForm (H := Decimal.conversions) contact
             (world goodEmail ∅)).
Proof.
  apply (render_deterministic (H := Decimal.conversions) contact
           (world goodEmail ∅) (later goodEmail ∅)).
  - reflexivity.
  - reflexivity.
Defined.

End Purity.

(** ** What a visible field renders *)

Module Rendering.
Import JS JSFacts Form PassFacts Sample.

Lemma has_type_false field k : type field ≠ str k → has_type field k = false.
Proof.
  intros N. apply not_true_is_false. unfold has_type.
  by rewrite strict_equal_str.
Qed.

Lemma kinds_of_input k :
  k ∈ ["text"; "email"; "password"; "date"] → k ∈ kinds.
Proof. unfold kinds. rewrite !elem_of_cons. tauto. Qed.

Section Rendering.
Context `{Conversions}.
Variable props : Props.
Variable watchedValues : gmap string Value.
Variable errors : gmap string FieldError.

(** C8.  A visible field whose type is none of the ten recognised kinds
    renders its label block and its error display and no control: the pass
    does not fail and registers nothing, the seven dispatch positions hold
    [false], and the error display is the message when the error-set has an
    entry for the field. *)
Theorem unknown_kind_renders_label_and_error (field : Field) (w : World) :
  shouldRender watchedValues field = true →
  (∀ k, k ∈ kinds → type field ≠ str k) →
  let out :=
    element "div"
      [attr "key" (str (name field)); attr "className" (str "mb-4 text-start")]
      [element "label"
         [attr "htmlFor" (str (name field));
          attr "className"
            (str ("mb-1 block text-sm font-medium text-gray-900 "
                  ++ labelClassName props))]
         [expr (label field)];
       expr (boolean false); expr (boolean false); expr (boolean false);
       expr (boolean false); expr (boolean false); expr (boolean false);
       expr (boolean false);
       errors_display errors field] in
  renderField props watchedValues errors field w = (w, inr out)
  ∧ controls out = []
  ∧ ∀ e, errors !! name field = Some e →
      errors_display errors field
      = element "div" [attr "className" (str "mt-1 text-sm text-red-500")]
          [expr (message e)].
Proof.
  intros Hs Hk out. subst out.
  assert (∀ k, k ∈ kinds → has_type field k = false) as Ht.
  { intros k Hin. by apply has_type_false, Hk. }
  split; [|split].
  - unfold renderField. rewrite Hs. change (negb true) with false.
    cbv beta iota.
    unfold input_branch, textarea_branch, select_branch, radio_branch,
      checkbox_branch, file_branch, rating_branch, label_block.
    rewrite includes_false.
    2:{ intros k Hin. by apply Hk, kinds_of_input. }
    rewrite !Ht by (unfold kinds; repeat constructor).
    reflexivity.
  - unfold errors_display. simpl. by destruct (errors !! name field), (inherited (name field)).
  - intros e He. unfold errors_display. by rewrite He.
Qed.

Lemma entries_errors_display field : entries (errors_display errors field) = [].
Proof. unfold errors_display. by destruct (errors !! name field), (inherited (name field)). Qed.

Lemma entries_select_options (opts : list Opt.t) :
  flat_map entries (map select_option opts)
  = map (λ o, (Opt.value o, Opt.label o)) opts.
Proof.
  induction opts as [|o opts IH]; [done|].
  simpl. by rewrite IH.
Qed.

(** A radio entry always renders, to a node that depends on the option
    alone and reads back as the option's value and label. *)
Lemma radio_option_run field :
  ∃ g : Opt.t → Node,
    (∀ o w, ∃ w', radio_option field o w = (w', inr (g o)))
    ∧ ∀ o, entries (g o) = [(Opt.value o, Opt.label o)].
Proof.
  eexists. split.
  - intros o w. eexists. unfold radio_option, bind, register, ret.
    reflexivity.
  - intros o. reflexivity.
Qed.

Lemma entries_flat_map {A} (g : A → Node) (e : A → Value * Value) l :
  (∀ a, entries (g a) = [e a]) → flat_map entries (map g l) = map e l.
Proof.
  intros Hg. induction l as [|a l IH]; [done|].
  simpl. by rewrite Hg, IH.
Qed.

(** C7.  A visible [select] or [radio] field with [N] options renders, and
    its output holds exactly [N] selectable entries, in the order of the
    options, each with the value and the label of its option. *)
Theorem options_render_in_order (field : Field) (opts : list Opt.t)
    (w : World) :
  shouldRender watchedValues field = true →
  type field = str "select" ∨ type field = str "radio" →
  options field = Some opts →
  ∃ w' out,
    renderField props watchedValues errors field w = (w', inr out)
    ∧ entries out = map (λ o, (Opt.value o, Opt.label o)) opts
    ∧ length (entries out) = length opts.
Proof.
  intros Hs Ht Ho.
  assert (∃ w' out,
    renderField props watchedValues errors field w = (w', inr out)
    ∧ entries out = map (λ o, (Opt.value o, Opt.label o)) opts)
    as (w' & out & Hr & He).
  2:{ exists w', out. split; [done|]. split; [done|].
      by rewrite He, length_map. }
  unfold renderField. rewrite Hs. change (negb true) with false.
  cbv beta iota.
  unfold input_branch, textarea_branch, select_branch, radio_branch,
    checkbox_branch, file_branch, rating_branch, label_block, has_type,
    options_map.
  rewrite Ho.
  destruct Ht as [-> | ->].
  - destruct (mapM_map (λ option, ret (select_option option)) select_option
                (λ _, True) opts) with (w := fst (register (name field) w))
      as (w1 & E1 & _); [by eauto | done |].
    simpl in E1.
    eexists _, _. split.
    + unfold bind, whenM, ret, register; simpl. unfold ret in E1.
      rewrite E1. reflexivity.
    + simpl. rewrite entries_errors_display, !app_nil_r.
      apply entries_select_options.
  - destruct (radio_option_run field) as (g & Hg & Hge).
    destruct (mapM_map (radio_option field) g (λ _, True) opts
                (λ o w _, let (w', E) := Hg o w in
                          ex_intro _ w' (conj E I)) w I)
      as (w1 & E1 & _).
    eexists _, _. split.
    + unfold bind, whenM, ret; simpl. unfold bind in E1. rewrite E1.
      reflexivity.
    + simpl. rewrite entries_errors_display, !app_nil_r.
      by apply entries_flat_map.
Qed.

Lemma stars_errors_display field : stars (errors_display errors field) = [].
Proof. unfold errors_display. by destruct (errors !! name field), (inherited (name field)). Qed.

Lemma stars_flat_map {A} (g : A → Node) (e : A → Value * Value) l :
  (∀ a, stars (g a) = [e a]) → flat_map stars (map g l) = map e l.
Proof.
  intros Hg. induction l as [|a l IH]; [done|].
  simpl. by rewrite Hg, IH.
Qed.

(** A star always renders; under a fixed value-set its node depends on the
    index alone and reads back as the star's value and glyph. *)
Lemma star_run field (vs : gmap string Value) :
  ∃ g : nat → Node,
    (∀ i w, formValues w = vs →
       ∃ w', star field i w = (w', inr (g i)) ∧ formValues w' = vs)
    ∧ ∀ i, stars (g i)
           = [(number (succ_index i),
               str (star_glyph (default undefined (vs !! name field)) i))].
Proof.
  eexists. split.
  - intros i w Hw. eexists. unfold star, bind, register, watch, ret. simpl.
    rewrite Hw. split; reflexivity.
  - intros i. reflexivity.
Qed.



Lemma slots_of_max field M :
  star_count field M →
  Array (logical_or (max field) (of_Z 5)) = inr (replicate M undefined).
Proof.
  intros [[-> ->] | (-> & H1 & H2)].
  - apply (Array_of_Z 5). lia.
  - unfold logical_or, of_nat. rewrite truthy_of_Z by lia.
    rewrite Array_of_Z by lia. by rewrite Nat2Z.id.
Qed.


(** What a visible field's block is made of, when the pass returns: the
    label block, the seven dispatch positions and the error display. *)
Lemma renderField_children field w w' out :
  shouldRender watchedValues field = true →
  renderField props watchedValues errors field w = (w', inr out) →
  ∃ branches,
    length branches = 7%nat
    ∧ out = element "div"
              [attr "key" (str (name field));
               attr "className" (str "mb-4 text-start")]
              (label_block props field :: branches
               ++ [errors_display errors field]).
Proof.
  intros Hs. unfold renderField. rewrite Hs. change (negb true) with false.
  cbv beta iota. unfold bind.
  repeat match goal with
         | |- context [let (_, _) := ?m ?w0 in _] =>
             destruct (m w0) as [? [?|?]]; [discriminate|]
         end.
  intros [= <- <-]. eexists [_; _; _; _; _; _; _]. split; reflexivity.
Qed.

End Rendering.

(** The rating scenario of the specification: three stars and the value two,
    held as a number or, as the star controls write it, as a string. *)
Example rating_scenario :
  ∀ v, v = of_Z 2 ∨ v = str "2" →
    match snd (renderField (H := Decimal.conversions) contact
                 {[ "satisfaction" := v ]} ∅ satisfaction
                 (world {[ "satisfaction" := v ]} ∅)) with
    | inr out => map snd (stars out)
    | inl _ => []
    end = [str "★"; str "★"; str "☆"].
Proof. intros v [-> | ->]; vm_compute; reflexivity. Qed.

(** An untouched rating shows no filled star. *)
Example rating_unset :
  match snd (renderField (H := Decimal.conversions) contact ∅ ∅ satisfaction
               (world ∅ ∅)) with
  | inr out => map snd (stars out)
  | inl _ => []
  end = [str "☆"; str "☆"; str "☆"].
Proof. vm_compute. reflexivity. Qed.

(** A select without [options] makes the pass raise. *)
Example select_without_options :
  snd (renderField (H := Decimal.conversions) contact ∅ ∅
         {| name := "country"; label := str "Country"; type := str "select";
            placeholder := undefined; options := None; conditional := None;
            max := undefined |}
         (world ∅ ∅))
  = inl TypeError.
Proof. vm_compute. reflexivity. Qed.

Lemma unknown_kind_renders_label_and_error_witness :
  ∃ out,
    renderField (H := Decimal.conversions) contact ∅
      {[ "colour" := {| message := str "Pick a colour" |} ]} colour
      (world ∅ ∅)
    = (world ∅ ∅, inr out)
    ∧ controls out = []
    ∧ errors_display {[ "colour" := {| message := str "Pick a colour" |} ]}
        colour
      = element "div" [attr "className" (str "mt-1 text-sm text-red-500")]
          [expr (str "Pick a colour")].
Proof.
  destruct (unknown_kind_renders_label_and_error (H := Decimal.conversions)
              contact ∅
              {[ "colour" := {| message := str "Pick a colour" |} ]}
              colour (world ∅ ∅))
    as (Hr & Hc & He).
  - reflexivity.
  - intros k Hin [= <-]. unfold kinds in Hin.
    repeat (apply elem_of_cons in Hin as [Hin | Hin]; [discriminate Hin|]).
    by apply elem_of_nil in Hin.
  - eexists. split; [exact Hr|]. split; [exact Hc|].
    apply (He {| message := str "Pick a colour" |}). reflexivity.
Defined.

Lemma options_render_in_order_witness :
  ∃ w' out,
    renderField (H := Decimal.conversions) contact ∅ ∅ country (world ∅ ∅)
    = (w', inr out)
    ∧ entries out
      = map (λ o, (Opt.value o, Opt.label o))
          [ {| Opt.value := str "us"; Opt.label := str "US" |};
            {| Opt.value := str "other"; Opt.label := str "Other" |} ]
    ∧ length (entries out) = 2%nat.
Proof.
  apply (options_render_in_order (H := Decimal.conversions) contact ∅ ∅
           country).
  - reflexivity.
  - left. reflexivity.
  - reflexivity.
Defined.


End Rendering.

(** ** Submitting *)

Module Submit.
Import JS JSFacts Form PassFacts Rendering Sample.

Section Submit.
Context `{Conversions}.
Variable props : Props.

(** The form a pass returns: its [onSubmit] is [handleSubmit] around
    [enhancedSubmit], and its first child is the array of the fields'
    blocks. *)
Lemma ReusableForm_returns w w' form :
  ReusableForm props w = (w', inr form) →
  ∃ items attrs rest,
    form = element "form"
             (handler "onSubmit"
                (handleSubmit (schema props) (enhancedSubmit (onSubmit props)))
              :: attrs)
             (array items :: rest)
    ∧ mapM (renderField props (formValues w) (formErrors w)) (fields props) w
      = (w', inr items).
Proof.
  unfold ReusableForm, formState_errors, watch_all. unfold bind at 1 2 3.
  destruct (mapM _ _ w) as [w1 [e|items]] eqn:E; [discriminate|].
  simpl. intros [= <- <-]. by eexists _, _, _.
Qed.

Lemma submit_rendered w w' form :
  ReusableForm props w = (w', inr form) →
  submit form = handleSubmit (schema props) (enhancedSubmit (onSubmit props)).
Proof.
  intros Hr. destruct (ReusableForm_returns _ _ _ Hr) as (? & ? & ? & -> & _).
  reflexivity.
Qed.

(** C2.  Submitting a rendered form while the complete current value-set
    passes the schema invokes the caller's [onSubmit] exactly once, with the
    full value-set: the log of invocations grows by that one, and in its
    argument the entry of every field, hidden ones included, is the one the
    store holds. *)
Theorem valid_submit_invokes_onSubmit_once (w w' : World) (form : Node)
    (now : World) :
  ReusableForm props w = (w', inr form) →
  schema props (formValues now) = ∅ →
  let after := fst (submit form now) in
  invoked after = invoked now ++ [(onSubmit props, formValues now)]
  ∧ ∀ field f data,
      shouldRender (formValues now) field = false →
      last (invoked after) = Some (f, data) →
      data !! name field = formValues now !! name field.
Proof.
  intros Hr Hv after. subst after.
  rewrite (submit_rendered _ _ _ Hr). unfold handleSubmit.
  rewrite decide_True by done. simpl. split; [done|].
  intros field f data _. rewrite last_snoc. by intros [= <- <-].
Qed.

(** C3.  Submitting a rendered form while the value-set fails the schema
    does not invoke the caller's [onSubmit]; the error-set becomes the
    failures the validation engine reported, so it has, for every failing
    field, the entry the engine gave it, whatever its message; the value-set
    is left as it was; and in the next pass the block of a failing field
    that is visible ends with the display of that entry's message, while a
    failing field that is hidden renders as [null], its message not
    displayed. *)
Theorem invalid_submit_sets_errors (w w' : World) (form : Node)
    (now : World) :
  ReusableForm props w = (w', inr form) →
  schema props (formValues now) ≠ ∅ →
  let failures := schema props (formValues now) in
  let after := fst (submit form now) in
  invoked after = invoked now
  ∧ formErrors after = failures
  ∧ formValues after = formValues now
  ∧ ∀ w'' form',
      ReusableForm props after = (w'', inr form') →
      ∃ items attrs rest,
        form' = element "form" attrs (array items :: rest)
        ∧ ∀ i field e,
            fields props !! i = Some field →
            failures !! name field = Some e →
            (shouldRender (formValues now) field = true →
             ∃ blocks,
               items !! i
               = Some (element "div"
                         [attr "key" (str (name field));
                          attr "className" (str "mb-4 text-start")]
                         (blocks
                          ++ [element "div"
                                [attr "className"
                                   (str "mt-1 text-sm text-red-500")]
                                [expr (message e)]])))
            ∧ (shouldRender (formValues now) field = false →
               items !! i = Some (expr null)).
Proof.
  intros Hr Hv failures after. subst after.
  rewrite (submit_rendered _ _ _ Hr). unfold handleSubmit.
  rewrite decide_False by done. simpl. fold failures.
  split; [done|]. split; [done|]. split; [done|].
  intros w'' form' Hr'.
  destruct (ReusableForm_returns _ _ _ Hr') as (items & attrs & rest & -> & Hm).
  simpl in Hm. eexists items, _, rest. split; [reflexivity|].
  intros i field e Hi He.
  destruct (mapM_lookup _ _ _ _ _ Hm) as [_ Hnth].
  destruct (Hnth i field Hi) as (b & wa & wb & Hb & Hf).
  split; intros Hs.
  - destruct (renderField_children _ _ _ _ _ _ _ Hs Hf)
      as (branches & _ & ->).
    exists (label_block props field :: branches).
    rewrite Hb. unfold errors_display. by rewrite He.
  - rewrite Hb. unfold renderField in Hf. rewrite Hs in Hf.
    by injection Hf as _ <-.
Qed.

End Submit.

Lemma returned_rendered `{Conversions} (p : Props) (w : World) :
  returned (snd (ReusableForm p w)) = true →
  ReusableForm p w = (fst (ReusableForm p w), inr (rendered p w)).
Proof.
  unfold rendered. destruct (ReusableForm p w) as [w' [e|form]]; simpl.
  - discriminate.
  - reflexivity.
Qed.

Lemma contactForm_rendered :
  ReusableForm (H := Decimal.conversions) contact (world ∅ ∅)
  = (fst (ReusableForm (H := Decimal.conversions) contact (world ∅ ∅)),
     inr contactForm).
Proof. apply returned_rendered. vm_compute. reflexivity. Qed.

(** The email scenario of the specification. *)
Example email_scenario :
  let after := fst (submit contactForm (world badEmail ∅)) in
  invoked after = []
  ∧ formErrors after !! "email"
    = Some {| message := str "Please enter a valid email" |}.
Proof. vm_compute. split; reflexivity. Qed.

Lemma valid_submit_invokes_onSubmit_once_witness :
  let after := fst (submit contactForm (world goodEmail ∅)) in
  invoked after = [(callback 0, goodEmail)]
  ∧ shouldRender (H := Decimal.conversions) goodEmail customCountry = false
  ∧ ∀ f data, last (invoked after) = Some (f, data) →
      data !! "customCountry" = Some (str "Atlantis").
Proof.
  destruct (valid_submit_invokes_onSubmit_once (H := Decimal.conversions)
              contact (world ∅ ∅) _ contactForm (world goodEmail ∅)
              contactForm_rendered)
    as (Hi & Hh).
  - reflexivity.
  - split; [exact Hi|]. split; [reflexivity|].
    intros f data Hd. exact (Hh customCountry f data eq_refl Hd).
Defined.

Lemma strictForm_rendered :
  ReusableForm (H := Decimal.conversions) strict (world ∅ ∅)
  = (fst (ReusableForm (H := Decimal.conversions) strict (world ∅ ∅)),
     inr strictForm).
Proof. apply returned_rendered. vm_compute. reflexivity. Qed.

Lemma invalid_submit_sets_errors_witness :
  let after := fst (submit strictForm (world badEmail ∅)) in
  invoked after = []
  ∧ formErrors after
    = {[ "email" := {| message := str "" |};
         "customCountry" :=
           {| message := str "Please specify your country" |} ]}
  ∧ ∃ items attrs rest blocks,
      rendered (H := Decimal.conversions) strict after
      = element "form" attrs (array items :: rest)
      ∧ items !! 0%nat
        = Some (element "div"
                  [attr "key" (str "email");
                   attr "className" (str "mb-4 text-start")]
                  (blocks
                   ++ [element "div"
                         [attr "className" (str "mt-1 text-sm text-red-500")]
                         [expr (str "")]]))
      ∧ items !! 2%nat = Some (expr null).
Proof.
  destruct (invalid_submit_sets_errors (H := Decimal.conversions)
              strict (world ∅ ∅) _ strictForm (world badEmail ∅)
              strictForm_rendered)
    as (Hi & He & _ & Hn).
  - intros E. apply (f_equal (λ m, m !! "email")) in E. discriminate E.
  - split; [exact Hi|]. split.
    + rewrite He. vm_compute. reflexivity.
    + destruct (Hn (fst (ReusableForm (H := Decimal.conversions) strict
                           (fst (submit strictForm (world badEmail ∅)))))
                  (rendered (H := Decimal.conversions) strict
                     (fst (submit strictForm (world badEmail ∅)))))
        as (items & attrs & rest & Hf & Hitems).
      * apply returned_rendered. vm_compute. reflexivity.
      * destruct (Hitems 0%nat email {| message := str "" |})
          as [Hshown _]; [reflexivity | reflexivity |].
        destruct (Hshown eq_refl) as (blocks & Hb).
        destruct (Hitems 2%nat customCountry
                    {| message := str "Please specify your country" |})
          as [_ Hhidden]; [reflexivity | reflexivity |].
        exists items, attrs, rest, blocks.
        split; [exact Hf|]. split; [exact Hb | exact (Hhidden eq_refl)].
Defined.

(** The claim as the specification words it fails on this submission: the
    schema reports the visible [email] with an empty message, so its entry
    in the error-set is not a non-empty message; and it reports the hidden
    [customCountry], whose message the next pass does not display: the one
    message displayed is the empty one. *)
Lemma invalid_submit_display_counterexample :
  let now := world badEmail ∅ in
  let after := fst (submit strictForm now) in
  let next := rendered (H := Decimal.conversions) strict after in
  schema strict (formValues now) !! "email" = Some {| message := str "" |}
  ∧ schema strict (formValues now) !! "customCountry"
    = Some {| message := str "Please specify your country" |}
  ∧ error_messages next = [str ""]
  ∧ ¬ (∀ n e, schema strict (formValues now) !! n = Some e →
         ∃ e', formErrors after !! n = Some e'
               ∧ message e' ≠ str "" ∧ message e' ∈ error_messages next).
Proof.
  assert (error_messages
            (rendered (H := Decimal.conversions) strict
               (fst (submit strictForm (world badEmail ∅))))
          = [str ""]) as Hm by (vm_compute; reflexivity).
  split; [reflexivity|]. split; [reflexivity|]. split; [exact Hm|].
  intros Hall.
  destruct (Hall "customCountry"
              {| message := str "Please specify your country" |} eq_refl)
    as (e' & He' & _ & Hin).
  assert (e' = {| message := str "Please specify your country" |}) as ->.
  { vm_compute in He'. by injection He' as <-. }
  rewrite Hm in Hin. apply elem_of_cons in Hin as [Hin|Hin].
  - discriminate Hin.
  - by apply elem_of_nil in Hin.
Qed.

End Submit.

(** ** The blocks of a pass *)

Module Blocks.
Import JS JSFacts Form PassFacts Rendering Sample.

(** Mapping a reader of trees over nodes made by a function. *)
Lemma flat_map_nodes {A B} (read : Node → list B) (g : A → Node)
    (h : A → list B) (l : list A) :
  (∀ a, read (g a) = h a) → flat_map read (map g l) = flat_map h l.
Proof.
  intros Hg. induction l as [|a l IH]; [done|].
  simpl. by rewrite Hg, IH.
Qed.

Lemma flat_map_singletons {A B} (f : A → B) (l : list A) :
  flat_map (λ a, [f a]) l = map f l.
Proof. induction l as [|a l IH]; [done|]. simpl. by rewrite IH. Qed.

Lemma flat_map_nil {A B} (l : list A) : flat_map (λ _, @nil B) l = [].
Proof. by induction l. Qed.

Lemma whenM_returns (cond : bool) (m : M Node) w w' b :
  whenM cond m w = (w', inr b) →
  (cond = false ∧ w' = w ∧ b = expr (boolean false))
  ∨ (cond = true ∧ m w = (w', inr b)).
Proof.
  destruct cond; simpl.
  - intros E. by right.
  - intros [= <- <-]. by left.
Qed.

Lemma radio_option_returns field option w :
  radio_option field option w
  = (mount (name field) w, inr (radio_entry field option)).
Proof. reflexivity. Qed.

Lemma star_returns `{Conversions} field i w :
  star field i w
  = (mount (name field) w,
     inr (star_node field (default undefined (formValues w !! name field)) i)).
Proof. reflexivity. Qed.

(** The entries of a radio group and the stars of a rating, when the map
    over them returns. *)
Lemma radio_options_return field (opts : list Opt.t) w w' entries :
  mapM (radio_option field) opts w = (w', inr entries) →
  entries = map (radio_entry field) opts.
Proof.
  intros E.
  destruct (mapM_map (radio_option field) (radio_entry field) (λ _, True)
              opts) with (w := w) as (w1 & E1 & _); [|done|].
  - intros o w0 _. exists (mount (name field) w0). by split.
  - rewrite E1 in E. by injection E as _ <-.
Qed.

Lemma select_options_return (opts : list Opt.t) w w' entries :
  mapM (λ option, ret (select_option option)) opts w = (w', inr entries) →
  entries = map select_option opts ∧ w' = w.
Proof.
  intros E.
  destruct (mapM_map (λ option, ret (select_option option)) select_option
              (λ w0, w0 = w) opts) with (w := w) as (w1 & E1 & ->); [|done|].
  - intros o w0 ->. by exists w.
  - rewrite E1 in E. by injection E as <- <-.
Qed.

Lemma stars_return `{Conversions} field (l : list nat) w w' nodes :
  mapM (star field) l w = (w', inr nodes) →
  nodes
  = map (star_node field (default undefined (formValues w !! name field))) l.
Proof.
  intros E.
  destruct (mapM_map (star field)
              (star_node field (default undefined (formValues w !! name field)))
              (λ w0, formValues w0 = formValues w) l) with (w := w)
    as (w1 & E1 & _); [|done|].
  - intros i w0 Hw. exists (mount (name field) w0).
    rewrite star_returns, Hw. by split.
  - rewrite E1 in E. by injection E as _ <-.
Qed.

Section Blocks.
Context `{Conversions}.
Variable props : Props.
Variable watchedValues : gmap string Value.
Variable errors : gmap string FieldError.

(** A block that returns went through the seven branches in order. *)
Lemma renderField_branches field w w' out :
  shouldRender watchedValues field = true →
  renderField props watchedValues errors field w = (w', inr out) →
  ∃ w1 w2 w3 w4 w5 w6 b1 b2 b3 b4 b5 b6 b7,
    input_branch props field w = (w1, inr b1)
    ∧ textarea_branch props field w1 = (w2, inr b2)
    ∧ select_branch props field w2 = (w3, inr b3)
    ∧ radio_branch props field w3 = (w4, inr b4)
    ∧ checkbox_branch props field w4 = (w5, inr b5)
    ∧ file_branch props field w5 = (w6, inr b6)
    ∧ rating_branch props field w6 = (w', inr b7)
    ∧ out = element "div"
              [attr "key" (str (name field));
               attr "className" (str "mb-4 text-start")]
              [label_block props field; b1; b2; b3; b4; b5; b6; b7;
               errors_display errors field].
Proof.
  intros Hs. unfold renderField. rewrite Hs. change (negb true) with false.
  cbv beta iota. unfold bind.
  destruct (input_branch props field w) as [w1 [?|b1]] eqn:E1;
    [discriminate|].
  destruct (textarea_branch props field w1) as [w2 [?|b2]] eqn:E2;
    [discriminate|].
  destruct (select_branch props field w2) as [w3 [?|b3]] eqn:E3;
    [discriminate|].
  destruct (radio_branch props field w3) as [w4 [?|b4]] eqn:E4;
    [discriminate|].
  destruct (checkbox_branch props field w4) as [w5 [?|b5]] eqn:E5;
    [discriminate|].
  destruct (file_branch props field w5) as [w6 [?|b6]] eqn:E6;
    [discriminate|].
  destruct (rating_branch props field w6) as [w7 [?|b7]] eqn:E7;
    [discriminate|].
  intros [= <- <-].
  exists w1, w2, w3, w4, w5, w6, b1, b2, b3, b4, b5, b6, b7.
  repeat split; done.
Qed.

(** What each branch returns when its condition holds. *)
Lemma input_branch_returns field w w' b :
  input_branch props field w = (w', inr b) →
  (includes ["text"; "email"; "password"; "date"] (type field) = false
   ∧ b = expr (boolean false))
  ∨ (includes ["text"; "email"; "password"; "date"] (type field) = true
     ∧ ∃ c, b = element "input"
                  [attr "id" (str (name field)); attr "type" (type field);
                   spread {| bound_to := name field |};
                   attr "className" (str c);
                   attr "placeholder" (placeholder field)] []).
Proof.
  intros E. apply whenM_returns in E as [(Hc & _ & ->) | (Hc & E)].
  - by left.
  - right. split; [done|]. injection E as _ <-. by eexists.
Qed.

Lemma textarea_branch_returns field w w' b :
  textarea_branch props field w = (w', inr b) →
  (has_type field "textarea" = false ∧ b = expr (boolean false))
  ∨ (has_type field "textarea" = true
     ∧ ∃ c, b = element "textarea"
                  [attr "id" (str (name field));
                   spread {| bound_to := name field |};
                   attr "className" (str c);
                   attr "placeholder" (placeholder field)] []).
Proof.
  intros E. apply whenM_returns in E as [(Hc & _ & ->) | (Hc & E)].
  - by left.
  - right. split; [done|]. injection E as _ <-. by eexists.
Qed.

Lemma select_branch_returns field w w' b :
  select_branch props field w = (w', inr b) →
  (has_type field "select" = false ∧ b = expr (boolean false))
  ∨ (has_type field "select" = true
     ∧ ∃ c opts,
         options field = Some opts
         ∧ b = element "select"
                 [attr "id" (str (name field));
                  spread {| bound_to := name field |};
                  attr "className" (str c)]
                 [array (map select_option opts)]).
Proof.
  intros E. apply whenM_returns in E as [(Hc & _ & ->) | (Hc & E)].
  - by left.
  - right. split; [done|]. revert E. unfold bind, options_map. simpl.
    destruct (options field) as [opts|]; [|discriminate].
    destruct (mapM _ opts _) as [w1 [e|entries]] eqn:Em; [discriminate|].
    apply select_options_return in Em as [-> _].
    intros [= _ <-]. by eexists _, _.
Qed.

Lemma radio_branch_returns field w w' b :
  radio_branch props field w = (w', inr b) →
  (has_type field "radio" = false ∧ b = expr (boolean false))
  ∨ (has_type field "radio" = true
     ∧ ∃ c opts,
         options field = Some opts
         ∧ b = element "div" [attr "className" (str c)]
                 [array (map (radio_entry field) opts)]).
Proof.
  intros E. apply whenM_returns in E as [(Hc & _ & ->) | (Hc & E)].
  - by left.
  - right. split; [done|]. revert E. unfold bind, options_map.
    destruct (options field) as [opts|]; [|discriminate].
    destruct (mapM _ opts _) as [w1 [e|entries]] eqn:Em; [discriminate|].
    apply radio_options_return in Em as ->.
    intros [= _ <-]. by eexists _, _.
Qed.

Lemma checkbox_branch_returns field w w' b :
  checkbox_branch props field w = (w', inr b) →
  (has_type field "checkbox" = false ∧ b = expr (boolean false))
  ∨ (has_type field "checkbox" = true
     ∧ ∃ c c',
         b = element "label" [attr "className" (str c)]
               [element "input"
                  [attr "id" (str (name field)); attr "type" (str "checkbox");
                   spread {| bound_to := name field |};
                   attr "className" (str c')] [];
                expr (label field)]).
Proof.
  intros E. apply whenM_returns in E as [(Hc & _ & ->) | (Hc & E)].
  - by left.
  - right. split; [done|]. injection E as _ <-. by eexists _, _.
Qed.

Lemma file_branch_returns field w w' b :
  file_branch props field w = (w', inr b) →
  (has_type field "file" = false ∧ b = expr (boolean false))
  ∨ (has_type field "file" = true
     ∧ ∃ c, b = element "input"
                  [attr "id" (str (name field)); attr "type" (str "file");
                   spread {| bound_to := name field |};
                   attr "className" (str c)] []).
Proof.
  intros E. apply whenM_returns in E as [(Hc & _ & ->) | (Hc & E)].
  - by left.
  - right. split; [done|]. injection E as _ <-. by eexists.
Qed.

Lemma rating_branch_returns field w w' b :
  rating_branch props field w = (w', inr b) →
  (has_type field "rating" = false ∧ b = expr (boolean false))
  ∨ (has_type field "rating" = true
     ∧ ∃ c c' c'' slots,
         Array (logical_or (max field) (of_Z 5)) = inr slots
         ∧ b = element "div" [attr "className" (str c)]
                 [element "label" [attr "className" (str c')]
                    [expr (label field)];
                  element "div" [attr "className" (str c'')]
                    [array
                       (map (star_node field
                               (default undefined
                                  (formValues w !! name field)))
                          (seq 0 (length slots)))]]).
Proof.
  intros E. apply whenM_returns in E as [(Hc & _ & ->) | (Hc & E)].
  - by left.
  - right. split; [done|]. revert E. unfold bind, lift.
    destruct (Array _) as [e|slots]; [discriminate|].
    destruct (mapM _ _ w) as [w1 [e|nodes]] eqn:Em; [discriminate|].
    apply stars_return in Em as ->.
    intros [= _ <-]. by eexists _, _, _, _.
Qed.






Lemma controls_radio_entries field (opts : list Opt.t) :
  control_names (array (map (radio_entry field) opts))
  = replicate (length opts) (Some (name field)).
Proof.
  unfold control_names. simpl.
  induction opts as [|o opts IH]; [done|]. simpl. by rewrite IH.
Qed.

Lemma controls_star_nodes field current (l : list nat) :
  control_names (array (map (star_node field current) l))
  = replicate (length l) (Some (name field)).
Proof.
  unfold control_names. simpl.
  induction l as [|i l IH]; [done|]. simpl. by rewrite IH.
Qed.

Lemma controls_select_options (opts : list Opt.t) :
  controls (array (map select_option opts)) = [].
Proof. simpl. induction opts as [|o opts IH]; [done|]. simpl. by rewrite IH. Qed.

Lemma controls_errors_display field :
  controls (errors_display errors field) = [].
Proof. unfold errors_display. by destruct (errors !! name field), (inherited (name field)). Qed.

Lemma controls_label_block field : controls (label_block props field) = [].
Proof. unfold label_block, when. by destruct (_ && _). Qed.

(** The conditions of the dispatch, as the count of controls reads them. *)
Lemma control_count_dispatch field :
  control_count field
  = ((if includes ["text"; "email"; "password"; "date"] (type field)
      then 1 else 0)
     + (if has_type field "textarea" then 1 else 0)
     + (if has_type field "select" then 1 else 0)
     + (if has_type field "radio"
        then length (default [] (options field)) else 0)
     + (if has_type field "checkbox" then 1 else 0)
     + (if has_type field "file" then 1 else 0)
     + (if has_type field "rating"
        then match Array (logical_or (max field) (of_Z 5)) with
             | inr slots => length slots
             | inl _ => 0
             end
        else 0))%nat.
Proof.
  unfold control_count, has_type, includes.
  destruct (type field) as [| |b|n|s|t r]; try reflexivity.
  cbn [existsb strict_equal]. rewrite !(String.eqb_sym _ s).
  repeat match goal with
         | |- context [String.eqb s ?k] =>
             destruct (String.eqb_spec s k) as [->|?];
             [cbn [String.eqb Ascii.eqb Bool.eqb orb andb]; lia|]
         end.
  reflexivity.
Qed.

(** X2.  Every interactive control in the block of a visible field is
    registered under the field's own name, and there are as many as the
    kind asks for: one for the single-control kinds, one per option for
    [radio], one per star for [rating], none for an unknown type. *)
Theorem controls_are_bound_to_the_field (field : Field) (w w' : World)
    (out : Node) :
  shouldRender watchedValues field = true →
  renderField props watchedValues errors field w = (w', inr out) →
  control_names out = replicate (control_count field) (Some (name field)).
Proof.
  intros Hs Hr.
  destruct (renderField_branches _ _ _ _ Hs Hr)
    as (w1 & w2 & w3 & w4 & w5 & w6 & b1 & b2 & b3 & b4 & b5 & b6 & b7
        & E1 & E2 & E3 & E4 & E5 & E6 & E7 & ->).
  rewrite control_count_dispatch.
  set (names := λ b, control_names b).
  assert (names b1
          = replicate (if includes ["text"; "email"; "password"; "date"]
                            (type field) then 1 else 0) (Some (name field)))
    as H1.
  { apply input_branch_returns in E1 as [[-> ->] | [-> [? ->]]];
      reflexivity. }
  assert (names b2
          = replicate (if has_type field "textarea" then 1 else 0)
              (Some (name field))) as H2.
  { apply textarea_branch_returns in E2 as [[-> ->] | [-> [? ->]]];
      reflexivity. }
  assert (names b3
          = replicate (if has_type field "select" then 1 else 0)
              (Some (name field))) as H3.
  { apply select_branch_returns in E3
      as [[-> ->] | [-> (? & opts & _ & ->)]]; [reflexivity|].
    unfold names, control_names. simpl controls.
    pose proof (controls_select_options opts) as Hc. simpl in Hc.
    rewrite Hc. reflexivity. }
  assert (names b4
          = replicate (if has_type field "radio"
                       then length (default [] (options field)) else 0)
              (Some (name field))) as H4.
  { apply radio_branch_returns in E4
      as [[-> ->] | [-> (? & opts & -> & ->)]]; [reflexivity|].
    pose proof (controls_radio_entries field opts) as Hc.
    unfold names, control_names in *. simpl in *. by rewrite app_nil_r. }
  assert (names b5
          = replicate (if has_type field "checkbox" then 1 else 0)
              (Some (name field))) as H5.
  { apply checkbox_branch_returns in E5 as [[-> ->] | [-> (? & ? & ->)]];
      reflexivity. }
  assert (names b6
          = replicate (if has_type field "file" then 1 else 0)
              (Some (name field))) as H6.
  { apply file_branch_returns in E6 as [[-> ->] | [-> [? ->]]];
      reflexivity. }
  assert (names b7
          = replicate (if has_type field "rating"
                       then match Array (logical_or (max field) (of_Z 5)) with
                            | inr slots => length slots
                            | inl _ => 0
                            end
                       else 0)
              (Some (name field))) as H7.
  { apply rating_branch_returns in E7
      as [[-> ->] | [-> (? & ? & ? & slots & -> & ->)]]; [reflexivity|].
    pose proof (controls_star_nodes field
                  (default undefined (formValues w6 !! name field))
                  (seq 0 (length slots))) as Hc.
    unfold names, control_names in *. simpl in *.
    by rewrite !app_nil_r, Hc, length_seq. }
  unfold names, control_names in *. simpl controls.
  rewrite controls_label_block, controls_errors_display, app_nil_r.
  simpl app. rewrite !map_app, H1, H2, H3, H4, H5, H6, H7.
  rewrite !replicate_add, <- !app_assoc. reflexivity.
Qed.

Lemma ids_radio_entries field (opts : list Opt.t) :
  control_ids (array (map (radio_entry field) opts))
  = replicate (length opts) None.
Proof.
  unfold control_ids. simpl.
  induction opts as [|o opts IH]; [done|]. simpl. by rewrite IH.
Qed.

Lemma ids_star_nodes field current (l : list nat) :
  control_ids (array (map (star_node field current) l))
  = replicate (length l) None.
Proof.
  unfold control_ids. simpl.
  induction l as [|i l IH]; [done|]. simpl. by rewrite IH.
Qed.

(** A type is one string: the conditions on it exclude one another. *)
Lemma has_type_exclusive field k k' :
  k ≠ k' → has_type field k = true → has_type field k' = false.
Proof.
  unfold has_type. intros Hk E. apply strict_equal_str in E. rewrite E.
  simpl. by apply String.eqb_neq.
Qed.

Lemma includes_exclusive field k l :
  k ∉ l → has_type field k = true → includes l (type field) = false.
Proof.
  unfold has_type. intros Hk E. apply strict_equal_str in E.
  apply includes_false. intros k' Hin. rewrite E. intros [= <-]. done.
Qed.

(** X14.  The controls of the single-control kinds carry the field's name as
    their [id], the one the top label points at with [htmlFor]; the inputs of
    a radio group and of a rating carry no [id]. *)
Theorem controls_ids (field : Field) (w w' : World) (out : Node) :
  shouldRender watchedValues field = true →
  renderField props watchedValues errors field w = (w', inr out) →
  control_ids out = replicate (control_count field) (control_id field).
Proof.
  intros Hs Hr.
  destruct (renderField_branches _ _ _ _ Hs Hr)
    as (w1 & w2 & w3 & w4 & w5 & w6 & b1 & b2 & b3 & b4 & b5 & b6 & b7
        & E1 & E2 & E3 & E4 & E5 & E6 & E7 & ->).
  rewrite control_count_dispatch.
  set (ids := λ b, control_ids b).
  assert (ids b1
          = replicate (if includes ["text"; "email"; "password"; "date"]
                            (type field) then 1 else 0) (control_id field))
    as H1.
  { apply input_branch_returns in E1 as [[-> ->] | [Hc [? ->]]];
      [reflexivity|]. rewrite Hc. unfold control_id, has_type, includes in *.
    destruct (type field) as [| |?|?|s|? ?]; try discriminate Hc.
    cbn [existsb strict_equal] in *. rewrite !(String.eqb_sym _ s) in Hc.
    repeat match type of Hc with
           | context [String.eqb s ?k] =>
               destruct (String.eqb_spec s k) as [->|?]; [reflexivity|]
           end.
    discriminate Hc. }
  assert (ids b2
          = replicate (if has_type field "textarea" then 1 else 0)
              (control_id field)) as H2.
  { apply textarea_branch_returns in E2 as [[-> ->] | [Hc [? ->]]];
      [reflexivity|]. rewrite Hc. unfold control_id.
    by rewrite !(has_type_exclusive field "textarea") by done. }
  assert (ids b3
          = replicate (if has_type field "select" then 1 else 0)
              (control_id field)) as H3.
  { apply select_branch_returns in E3
      as [[-> ->] | [Hc (? & opts & _ & ->)]]; [reflexivity|].
    rewrite Hc. unfold control_id.
    rewrite !(has_type_exclusive field "select") by done.
    unfold ids, control_ids. simpl controls.
    pose proof (controls_select_options opts) as Ho. simpl in Ho.
    rewrite Ho. reflexivity. }
  assert (ids b4
          = replicate (if has_type field "radio"
                       then length (default [] (options field)) else 0)
              (control_id field)) as H4.
  { apply radio_branch_returns in E4
      as [[-> ->] | [Hc (? & opts & -> & ->)]]; [reflexivity|].
    unfold control_id. rewrite Hc.
    pose proof (ids_radio_entries field opts) as Ho.
    unfold ids, control_ids in *. simpl in *. by rewrite app_nil_r. }
  assert (ids b5
          = replicate (if has_type field "checkbox" then 1 else 0)
              (control_id field)) as H5.
  { apply checkbox_branch_returns in E5 as [[-> ->] | [Hc (? & ? & ->)]];
      [reflexivity|]. rewrite Hc. unfold control_id.
    by rewrite !(has_type_exclusive field "checkbox") by done. }
  assert (ids b6
          = replicate (if has_type field "file" then 1 else 0)
              (control_id field)) as H6.
  { apply file_branch_returns in E6 as [[-> ->] | [Hc [? ->]]];
      [reflexivity|]. rewrite Hc. unfold control_id.
    by rewrite !(has_type_exclusive field "file") by done. }
  assert (ids b7
          = replicate (if has_type field "rating"
                       then match Array (logical_or (max field) (of_Z 5)) with
                            | inr slots => length slots
                            | inl _ => 0
                            end
                       else 0)
              (control_id field)) as H7.
  { apply rating_branch_returns in E7
      as [[-> ->] | [Hc (? & ? & ? & slots & -> & ->)]]; [reflexivity|].
    unfold control_id. rewrite Hc, orb_true_r.
    pose proof (ids_star_nodes field
                  (default undefined (formValues w6 !! name field))
                  (seq 0 (length slots))) as Ho.
    unfold ids, control_ids in *. simpl in *.
    by rewrite !app_nil_r, Ho, length_seq. }
  unfold ids, control_ids in *. simpl controls.
  rewrite controls_label_block, controls_errors_display, app_nil_r.
  simpl app. rewrite !map_app, H1, H2, H3, H4, H5, H6, H7.
  rewrite !replicate_add, <- !app_assoc. reflexivity.
Qed.

Lemma label_texts_select_options (opts : list Opt.t) :
  flat_map label_texts (map select_option opts) = [].
Proof. induction opts as [|o opts IH]; [done|]. simpl. by rewrite IH. Qed.

Lemma label_texts_radio_entries field (opts : list Opt.t) :
  flat_map label_texts (map (radio_entry field) opts) = map Opt.label opts.
Proof. induction opts as [|o opts IH]; [done|]. simpl. by rewrite IH. Qed.

Lemma label_texts_star_nodes field current (l : list nat) :
  flat_map label_texts (map (star_node field current) l) = [].
Proof. induction l as [|i l IH]; [done|]. simpl. by rewrite IH. Qed.

Lemma label_texts_errors_display field :
  label_texts (errors_display errors field) = [].
Proof. unfold errors_display. by destruct (errors !! name field), (inherited (name field)). Qed.

(** X15.  The block of a visible field paints the field's label in exactly
    one [<label>], whatever the type: above the control, or inline for a
    checkbox and a rating, which get no label above.  The only other label
    texts are the labels of the options of a radio group, in order. *)
Theorem label_is_painted_once (field : Field) (w w' : World) (out : Node) :
  shouldRender watchedValues field = true →
  renderField props watchedValues errors field w = (w', inr out) →
  label_texts out
  = label field
    :: (if has_type field "radio"
        then map Opt.label (default [] (options field)) else []).
Proof.
  intros Hs Hr.
  destruct (renderField_branches _ _ _ _ Hs Hr)
    as (w1 & w2 & w3 & w4 & w5 & w6 & b1 & b2 & b3 & b4 & b5 & b6 & b7
        & E1 & E2 & E3 & E4 & E5 & E6 & E7 & ->).
  assert (label_texts b1 = []) as H1.
  { by apply input_branch_returns in E1 as [[_ ->] | [_ [? ->]]]. }
  assert (label_texts b2 = []) as H2.
  { by apply textarea_branch_returns in E2 as [[_ ->] | [_ [? ->]]]. }
  assert (label_texts b3 = []) as H3.
  { apply select_branch_returns in E3
      as [[_ ->] | [_ (? & opts & _ & ->)]]; [done|].
    simpl. by rewrite label_texts_select_options. }
  assert (label_texts b4
          = if has_type field "radio"
            then map Opt.label (default [] (options field)) else []) as H4.
  { apply radio_branch_returns in E4
      as [[-> ->] | [-> (? & opts & -> & ->)]]; [done|].
    simpl. by rewrite label_texts_radio_entries, app_nil_r. }
  assert (label_texts b5
          = if has_type field "checkbox" then [label field] else []) as H5.
  { by apply checkbox_branch_returns in E5
      as [[-> ->] | [-> (? & ? & ->)]]. }
  assert (label_texts b6 = []) as H6.
  { by apply file_branch_returns in E6 as [[_ ->] | [_ [? ->]]]. }
  assert (label_texts b7
          = if has_type field "rating" then [label field] else []) as H7.
  { apply rating_branch_returns in E7
      as [[-> ->] | [-> (? & ? & ? & slots & _ & ->)]]; [done|].
    simpl. by rewrite label_texts_star_nodes. }
  assert (label_texts (label_block props field)
          = if negb (has_type field "checkbox")
               && negb (has_type field "rating")
            then [label field] else []) as H0.
  { unfold label_block, when. by destruct (_ && _). }
  cbn [label_texts String.eqb Ascii.eqb Bool.eqb flat_map app].
  rewrite H0, H1, H2, H3, H4, H5, H6, H7, label_texts_errors_display.
  destruct (has_type field "checkbox") eqn:Hc.
  - rewrite (has_type_exclusive field "checkbox" "radio") by done.
    rewrite (has_type_exclusive field "checkbox" "rating") by done.
    reflexivity.
  - destruct (has_type field "rating") eqn:Hg.
    + rewrite (has_type_exclusive field "rating" "radio") in * by done.
      reflexivity.
    + simpl. by rewrite !app_nil_r.
Qed.

End Blocks.

(** The field with the trigger left out, over an untouched form: its block,
    in full. *)
Example noTrigger_block :
  snd (renderField (H := Decimal.conversions) contact ∅ ∅ noTrigger
         (world ∅ ∅))
  = inr (element "div"
           [attr "key" (str "details");
            attr "className" (str "mb-4 text-start")]
           [element "label"
              [attr "htmlFor" (str "details");
               attr "className"
                 (str "mb-1 block text-sm font-medium text-gray-900 ")]
              [expr (str "Details")];
            element "input"
              [attr "id" (str "details"); attr "type" (str "text");
               spread {| bound_to := "details" |};
               attr "className"
                 (str "block w-full rounded-md bg-white px-3 py-1.5 text-base text-gray-900 outline outline-1 -outline-offset-1 outline-gray-300 placeholder:text-gray-400  sm:text-sm/6 ");
               attr "placeholder" undefined]
              [];
            expr (boolean false); expr (boolean false); expr (boolean false);
            expr (boolean false); expr (boolean false); expr (boolean false);
            expr undefined]).
Proof. vm_compute. reflexivity. Qed.


(** A block that returned is the block of the sample. *)
Lemma returned_block `{Conversions} p values errors field :
  returned (snd (renderField p values errors field (world values errors)))
  = true →
  renderField p values errors field (world values errors)
  = (fst (renderField p values errors field (world values errors)),
     inr (block p values errors field)).
Proof.
  unfold block.
  destruct (renderField p values errors field (world values errors))
    as [w' [e|b]]; simpl.
  - discriminate.
  - reflexivity.
Qed.


Lemma controls_are_bound_to_the_field_witness :
  control_names (block (H := Decimal.conversions) contact ∅ ∅ gender)
  = [Some "gender"; Some "gender"; Some "gender"].
Proof.
  refine (controls_are_bound_to_the_field (H := Decimal.conversions) contact ∅ ∅ gender
             (world ∅ ∅)
             (fst (renderField (H := Decimal.conversions) contact ∅ ∅ gender
                     (world ∅ ∅)))
             (block (H := Decimal.conversions) contact ∅ ∅ gender) _ _).
  - reflexivity.
  - apply returned_block. vm_compute. reflexivity.
Defined.

Lemma controls_ids_witness :
  control_ids (block (H := Decimal.conversions) contact ∅ ∅ country)
  = [Some (str "country")]
  ∧ control_ids (block (H := Decimal.conversions) contact ∅ ∅ gender)
    = [None; None; None].
Proof.
  split.
  - refine (controls_ids (H := Decimal.conversions) contact ∅ ∅ country
             (world ∅ ∅)
             (fst (renderField (H := Decimal.conversions) contact ∅ ∅ country
                     (world ∅ ∅)))
             (block (H := Decimal.conversions) contact ∅ ∅ country) _ _).
    + reflexivity.
    + apply returned_block. vm_compute. reflexivity.
  - refine (controls_ids (H := Decimal.conversions) contact ∅ ∅ gender
             (world ∅ ∅)
             (fst (renderField (H := Decimal.conversions) contact ∅ ∅ gender
                     (world ∅ ∅)))
             (block (H := Decimal.conversions) contact ∅ ∅ gender) _ _).
    + reflexivity.
    + apply returned_block. vm_compute. reflexivity.
Defined.

Lemma label_is_painted_once_witness :
  label_texts (block (H := Decimal.conversions) contact ∅ ∅ terms)
  = [str "I agree to the terms and conditions"]
  ∧ label_texts (block (H := Decimal.conversions) contact ∅ ∅ gender)
    = [str "Gender"; str "Male"; str "Female"; str "Other"].
Proof.
  split.
  - refine (label_is_painted_once (H := Decimal.conversions) contact ∅ ∅ terms
             (world ∅ ∅)
             (fst (renderField (H := Decimal.conversions) contact ∅ ∅ terms
                     (world ∅ ∅)))
             (block (H := Decimal.conversions) contact ∅ ∅ terms) _ _).
    + reflexivity.
    + apply returned_block. vm_compute. reflexivity.
  - refine (label_is_painted_once (H := Decimal.conversions) contact ∅ ∅ gender
             (world ∅ ∅)
             (fst (renderField (H := Decimal.conversions) contact ∅ ∅ gender
                     (world ∅ ∅)))
             (block (H := Decimal.conversions) contact ∅ ∅ gender) _ _).
    + reflexivity.
    + apply returned_block. vm_compute. reflexivity.
Defined.

End Blocks.

(** ** The fields of a pass *)

Module Fields.
Import JS JSFacts Form PassFacts Rendering Blocks Sample.

(** Reading the items of a pass through a reader of trees. *)
Lemma mapM_flat_map {A B} (f : A → M Node) (read : Node → list B)
    (h : A → list B) (l : list A) w w' (items : list Node) :
  (∀ a wa wb b, f a wa = (wb, inr b) → read b = h a) →
  mapM f l w = (w', inr items) →
  flat_map read items = flat_map h l.
Proof.
  intros Hf. revert w w' items.
  induction l as [|a l IH]; intros w w' items; simpl.
  - by intros [= <- <-].
  - unfold bind at 1. destruct (f a w) as [w1 [e|b]] eqn:Ea; [done|].
    unfold bind at 1. destruct (mapM f l w1) as [w2 [e|bs]] eqn:El; [done|].
    intros [= <- <-]. simpl. by rewrite (Hf _ _ _ _ Ea), (IH _ _ _ El).
Qed.

(** An item that raises makes the map raise. *)
Lemma mapM_raises {A B} (f : A → M B) (l : list A) (a : A) w :
  a ∈ l →
  (∀ w0, ∃ e, snd (f a w0) = inl e) →
  ∃ e, snd (mapM f l w) = inl e.
Proof.
  intros Hin Hf. revert w.
  induction l as [|a0 l IH]; intros w; [by apply elem_of_nil in Hin|].
  simpl. unfold bind at 1.
  destruct (f a0 w) as [w1 [e|b]] eqn:Ea; [by eexists|].
  apply elem_of_cons in Hin as [-> | Hin].
  - destruct (Hf w) as [e He]. rewrite Ea in He. discriminate He.
  - unfold bind at 1. destruct (IH Hin w1) as [e He].
    destruct (mapM f l w1) as [w2 [e'|bs]]; [by eexists | discriminate He].
Qed.

Section Fields.
Context `{Conversions}.
Variable props : Props.

(** The form a pass returns, in full. *)
Lemma ReusableForm_form w w' form :
  ReusableForm props w = (w', inr form) →
  ∃ items,
    mapM (renderField props (formValues w) (formErrors w)) (fields props) w
    = (w', inr items)
    ∧ form
      = element "form"
          [handler "onSubmit"
             (handleSubmit (schema props) (enhancedSubmit (onSubmit props)));
           attr "className"
             (str ("p-5 md:p-10 text-start " ++ className props))]
          [array items;
           element "button"
             [attr "type" (str "submit");
              attr "className"
                (str ("px-3 py-2 text-sm font-semibold shadow-sm  "
                      ++ submitButtonClassName props))]
             [text "Submit"]].
Proof.
  unfold ReusableForm, formState_errors, watch_all. unfold bind at 1 2 3.
  destruct (mapM _ _ w) as [w1 [e|items]] eqn:E; [discriminate|].
  simpl. intros [= <- <-]. by exists items.
Qed.

(** X3.  The form a pass returns holds one item per field, in the order of
    the fields, followed by the submit button: the item of a hidden field is
    [null], the item of a visible field is a block keyed by the field's
    name. *)
Theorem items_follow_fields (w w' : World) (form : Node) :
  ReusableForm props w = (w', inr form) →
  ∃ items attrs battrs,
    form = element "form" attrs
             [array items; element "button" battrs [text "Submit"]]
    ∧ attribute "type" battrs = Some (str "submit")
    ∧ length items = length (fields props)
    ∧ ∀ i field,
        fields props !! i = Some field →
        ∃ item,
          items !! i = Some item
          ∧ (shouldRender (formValues w) field = false → item = expr null)
          ∧ (shouldRender (formValues w) field = true →
             ∃ children,
               item = element "div"
                        [attr "key" (str (name field));
                         attr "className" (str "mb-4 text-start")]
                        children).
Proof.
  intros Hr. destruct (ReusableForm_form _ _ _ Hr) as (items & Hm & ->).
  destruct (mapM_lookup _ _ _ _ _ Hm) as [Hlen Hnth].
  eexists items, _, _. split; [reflexivity|]. split; [reflexivity|].
  split; [exact Hlen|].
  intros i field Hi. destruct (Hnth i field Hi) as (b & wa & wb & Hb & Hf).
  exists b. split; [exact Hb|]. split.
  - intros Hs. unfold renderField in Hf. rewrite Hs in Hf.
    by injection Hf as _ <-.
  - intros Hs.
    destruct (renderField_children _ _ _ _ _ _ _ Hs Hf) as (bs & _ & ->).
    by eexists.
Qed.

(** X4.  A visible [select] or [radio] field without [options] makes its
    block raise a [TypeError]. *)
Theorem missing_options_raise (watchedValues : gmap string Value)
    (errors : gmap string FieldError) (field : Field) (w : World) :
  shouldRender watchedValues field = true →
  type field = str "select" ∨ type field = str "radio" →
  options field = None →
  snd (renderField props watchedValues errors field w) = inl TypeError.
Proof.
  intros Hs Ht Ho. unfold renderField. rewrite Hs.
  change (negb true) with false. cbv beta iota.
  unfold input_branch, textarea_branch, select_branch, radio_branch,
    has_type, options_map.
  rewrite Ho. by destruct Ht as [-> | ->].
Qed.

(** X5.  A pass returns a form or nothing: when the block of one field of
    the list raises, whatever the store, the pass raises and no form is
    returned. *)
Theorem raising_field_fails_the_pass (field : Field) (w : World) :
  field ∈ fields props →
  (∀ w0, ∃ e,
     snd (renderField props (formValues w) (formErrors w) field w0) = inl e) →
  ∃ e, snd (ReusableForm props w) = inl e.
Proof.
  intros Hin Hf.
  destruct (mapM_raises _ _ _ w Hin Hf) as [e He].
  exists e. unfold ReusableForm, formState_errors, watch_all.
  unfold bind at 1 2 3.
  destruct (mapM _ _ w) as [w1 [e'|items]]; [|discriminate He].
  simpl in *. congruence.
Qed.

(** What the block of a field displays of the error-set. *)
Lemma error_messages_renderField watchedValues errors field w w' b :
  renderField props watchedValues errors field w = (w', inr b) →
  error_messages b
  = if shouldRender watchedValues field
    then match errors !! name field with
         | Some e => [message e]
         | None => if decide (name field ∈ map fst Object_prototype)
                   then [undefined] else []
         end
    else [].
Proof.
  intros Hr. destruct (shouldRender watchedValues field) eqn:Hs.
  - destruct (renderField_branches _ _ _ _ _ _ _ Hs Hr)
      as (w1 & w2 & w3 & w4 & w5 & w6 & b1 & b2 & b3 & b4 & b5 & b6 & b7
          & E1 & E2 & E3 & E4 & E5 & E6 & E7 & ->).
    assert (error_messages b1 = []) as H1.
    { by apply input_branch_returns in E1 as [[_ ->] | [_ [? ->]]]. }
    assert (error_messages b2 = []) as H2.
    { by apply textarea_branch_returns in E2 as [[_ ->] | [_ [? ->]]]. }
    assert (error_messages b3 = []) as H3.
    { apply select_branch_returns in E3
        as [[_ ->] | [_ (? & opts & _ & ->)]]; [done|].
      simpl. rewrite app_nil_r.
      rewrite (flat_map_nodes _ _ (λ _, []));
        [apply flat_map_nil | intros ?; reflexivity]. }
    assert (error_messages b4 = []) as H4.
    { apply radio_branch_returns in E4
        as [[_ ->] | [_ (? & opts & _ & ->)]]; [done|].
      simpl. rewrite app_nil_r.
      rewrite (flat_map_nodes _ _ (λ _, []));
        [apply flat_map_nil | intros ?; reflexivity]. }
    assert (error_messages b5 = []) as H5.
    { by apply checkbox_branch_returns in E5 as [[_ ->] | [_ (? & ? & ->)]]. }
    assert (error_messages b6 = []) as H6.
    { by apply file_branch_returns in E6 as [[_ ->] | [_ [? ->]]]. }
    assert (error_messages b7 = []) as H7.
    { apply rating_branch_returns in E7
        as [[_ ->] | [_ (? & ? & ? & slots & _ & ->)]]; [done|].
      simpl. rewrite !app_nil_r.
      rewrite (flat_map_nodes _ _ (λ _, []));
        [apply flat_map_nil | intros ?; reflexivity]. }
    unfold label_block, when.
    destruct (negb _ && negb _); cbn [error_messages error_text flat_map];
      rewrite H1, H2, H3, H4, H5, H6, H7; simpl;
      unfold errors_display; rewrite inherited_decide;
      by destruct (errors !! name field), (inherited (name field)).
  - unfold renderField in Hr. rewrite Hs in Hr. by injection Hr as _ <-.
Qed.

(** X6.  The error messages a rendered form displays are, in the order of
    the fields, those of the visible fields whose name reads truthy in the
    error-set: the message of the entry when the error-set has one, and an
    [undefined] message, in an empty error display, when it has none but the
    name is one [Object.prototype] defines.  An entry for a hidden field, or
    for a name that is no field, is not displayed. *)
Theorem displayed_errors (w w' : World) (form : Node) :
  ReusableForm props w = (w', inr form) →
  error_messages form
  = visible_errors (formValues w) (formErrors w) (fields props).
Proof.
  intros Hr. destruct (ReusableForm_form _ _ _ Hr) as (items & Hm & ->).
  cbn [error_messages error_text flat_map]. simpl. rewrite app_nil_r.
  unfold visible_errors.
  apply (mapM_flat_map _ _ _ _ _ _ _ (λ a wa wb b,
           error_messages_renderField _ _ a wa wb b) Hm).
Qed.

(** X7.  A conditional whose trigger is [NaN] never shows its field: no
    value is [===] to [NaN], not even [NaN]. *)
Theorem NaN_trigger_never_matches (watchedValues : gmap string Value)
    (field : Field) (c : Cond.t) :
  conditional field = Some c →
  Cond.value c = number NaN →
  shouldRender watchedValues field = false.
Proof.
  intros Hc Hv. unfold shouldRender. rewrite Hc, Hv.
  by destruct (get watchedValues (Cond.field c)) as [| | |[]| |].
Qed.

End Fields.

Lemma items_follow_fields_witness :
  ∃ items attrs battrs,
    contactForm
    = element "form" attrs
        [array items; element "button" battrs [text "Submit"]]
    ∧ attribute "type" battrs = Some (str "submit")
    ∧ length items = 4%nat
    ∧ items !! 2%nat = Some (expr null).
Proof.
  destruct (items_follow_fields (H := Decimal.conversions) contact
              (world ∅ ∅) _ contactForm Submit.contactForm_rendered)
    as (items & attrs & battrs & Hf & Hb & Hl & Hi).
  exists items, attrs, battrs. split; [exact Hf|]. split; [exact Hb|].
  split; [exact Hl|].
  destruct (Hi 2%nat customCountry eq_refl) as (item & Hitem & Hhidden & _).
  rewrite Hitem. f_equal. apply Hhidden. reflexivity.
Defined.

Lemma missing_options_raise_witness :
  snd (renderField (H := Decimal.conversions) contact ∅ ∅ broken (world ∅ ∅))
  = inl TypeError.
Proof.
  apply (missing_options_raise (H := Decimal.conversions) contact ∅ ∅ broken).
  - reflexivity.
  - left. reflexivity.
  - reflexivity.
Defined.

Lemma raising_field_fails_the_pass_witness :
  ∃ e,
    snd (ReusableForm (H := Decimal.conversions) (props [email; broken])
           (world ∅ ∅))
    = inl e.
Proof.
  apply (raising_field_fails_the_pass (H := Decimal.conversions)
           (props [email; broken]) broken (world ∅ ∅)).
  - right. left.
  - intros w0. exists TypeError. reflexivity.
Defined.

Lemma displayed_errors_witness :
  error_messages
    (rendered (H := Decimal.conversions)
       (props [email; customCountry; inheritedName]) (world ∅ twoErrors))
  = [str "Email is required"; undefined].
Proof.
  refine (displayed_errors (H := Decimal.conversions)
            (props [email; customCountry; inheritedName])
            (world ∅ twoErrors)
            (fst (ReusableForm (H := Decimal.conversions)
                    (props [email; customCountry; inheritedName])
                    (world ∅ twoErrors)))
            (rendered (H := Decimal.conversions)
               (props [email; customCountry; inheritedName])
               (world ∅ twoErrors))
            _).
  apply Submit.returned_rendered. vm_compute. reflexivity.
Defined.

Lemma NaN_trigger_never_matches_witness :
  shouldRender (H := Decimal.conversions) {[ "count" := number NaN ]} onNaN
  = false.
Proof.
  apply (NaN_trigger_never_matches (H := Decimal.conversions)
           {[ "count" := number NaN ]} onNaN
           {| Cond.field := str "count"; Cond.value := number NaN |}).
  - reflexivity.
  - reflexivity.
Defined.

End Fields.

(** ** What a pass leaves alone *)

Module Frame.
Import JS JSFacts Form PassFacts Sample.

Lemma framed_ret {A} names (a : A) : framed names (ret a).
Proof.
  intros w. simpl. repeat split; [done | apply union_subseteq_l].
Qed.

Lemma framed_lift {A} names (r : Exception + A) : framed names (lift r).
Proof.
  intros w. simpl. repeat split; [done | apply union_subseteq_l].
Qed.

Lemma framed_watch names name : framed names (watch name).
Proof.
  intros w. simpl. repeat split; [done | apply union_subseteq_l].
Qed.

Lemma framed_register names name : name ∈ names → framed names (register name).
Proof.
  intros Hn w. simpl. repeat split; [apply union_subseteq_r |].
  intros x Hx. apply elem_of_union in Hx as [Hx | Hx]; apply elem_of_union.
  - right. apply elem_of_singleton in Hx. by subst.
  - by left.
Qed.

Lemma framed_bind {A B} names (m : M A) (k : A → M B) :
  framed names m → (∀ a, framed names (k a)) → framed names (bind m k).
Proof.
  intros Hm Hk w. unfold bind. specialize (Hm w).
  destruct (m w) as [w1 [e|a]]; simpl in *; [exact Hm|].
  destruct Hm as (Hv & He & Hi & Hs & Hn).
  destruct (Hk a w1) as (Hv' & He' & Hi' & Hs' & Hn').
  repeat split; [congruence | congruence | congruence | |].
  - by transitivity (mounted w1).
  - intros x Hx. apply Hn', elem_of_union in Hx as [Hx | Hx].
    + by apply Hn.
    + apply elem_of_union. by right.
Qed.

Lemma framed_mapM {A B} names (f : A → M B) (l : list A) :
  (∀ a, a ∈ l → framed names (f a)) → framed names (mapM f l).
Proof.
  induction l as [|a l IH]; intros Hf; simpl.
  - apply framed_ret.
  - apply framed_bind; [apply Hf; by left|]. intros b.
    apply framed_bind; [|intros bs; apply framed_ret].
    apply IH. intros a' Ha'. apply Hf. by right.
Qed.

Lemma framed_whenM names (cond : bool) (m : M Node) :
  framed names m → framed names (whenM cond m).
Proof. intros Hm. destruct cond; [done | apply framed_ret]. Qed.

Lemma framed_options_map {B} names (f : Opt.t → M B) field :
  (∀ o, framed names (f o)) → framed names (options_map f field).
Proof.
  intros Hf. unfold options_map. destruct (options field).
  - apply framed_mapM. auto.
  - apply framed_lift.
Qed.

Section Frame.
Context `{Conversions}.
Variable props : Props.

Ltac frames Hn :=
  repeat first
    [ apply framed_whenM | apply framed_ret | apply framed_lift
    | apply framed_watch | apply (framed_register _ _ Hn)
    | apply framed_options_map; intros ?
    | apply framed_mapM; intros ? ?
    | apply framed_bind; [|intros ?] ].

(** The block of a field mounts the field's own name at most, and nothing
    when the field is hidden. *)
Lemma framed_renderField names watchedValues errors field :
  (shouldRender watchedValues field = true → name field ∈ names) →
  framed names (renderField props watchedValues errors field).
Proof.
  intros Hn. unfold renderField.
  destruct (shouldRender watchedValues field); [|apply framed_ret].
  specialize (Hn eq_refl). simpl negb. cbv iota.
  unfold input_branch, textarea_branch, select_branch, radio_branch,
    checkbox_branch, file_branch, rating_branch, radio_option, star.
  frames Hn.
Qed.

Lemma visible_name watchedValues (fields : list Field) field :
  field ∈ fields →
  shouldRender watchedValues field = true →
  name field ∈ visible_names watchedValues fields.
Proof.
  intros Hin Hs. unfold visible_names.
  apply elem_of_list_to_set, list_elem_of_In, in_map, filter_In.
  split; [by apply list_elem_of_In | done].
Qed.

(** X8.  A pass, whether it returns or raises, leaves the value-set and the
    error-set as they were and invokes no callback of the caller; it forgets
    no mounted name, and the names it mounts are names of fields of the list
    that pass [shouldRender]: a hidden field is not registered. *)
Theorem pass_keeps_the_store (w : World) :
  formValues (fst (ReusableForm props w)) = formValues w
  ∧ formErrors (fst (ReusableForm props w)) = formErrors w
  ∧ invoked (fst (ReusableForm props w)) = invoked w
  ∧ mounted w ⊆ mounted (fst (ReusableForm props w))
  ∧ ∀ n, n ∈ mounted (fst (ReusableForm props w)) →
      n ∈ mounted w
      ∨ ∃ field, field ∈ fields props
                 ∧ shouldRender (formValues w) field = true
                 ∧ name field = n.
Proof.
  assert (framed (visible_names (formValues w) (fields props))
            (mapM (renderField props (formValues w) (formErrors w))
               (fields props))) as Hm.
  { apply framed_mapM. intros field Hin. apply framed_renderField.
    intros Hs. by apply visible_name. }
  destruct (Hm w) as (Hv & He & Hi & Hsub & Hn).
  assert (fst (ReusableForm props w)
          = fst (mapM (renderField props (formValues w) (formErrors w))
                   (fields props) w)) as ->.
  { unfold ReusableForm, formState_errors, watch_all. unfold bind at 1 2 3.
    by destruct (mapM _ _ w) as [w1 [e|items]]. }
  repeat split; [done | done | done | done |].
  intros n Hin. apply Hn, elem_of_union in Hin as [Hin | Hin]; [by left|].
  right. unfold visible_names in Hin.
  apply elem_of_list_to_set, list_elem_of_In, in_map_iff in Hin
    as (field & <- & Hf).
  apply filter_In in Hf as [Hf Hs].
  exists field. split; [by apply list_elem_of_In | done].
Qed.

End Frame.
End Frame.

(** ** The stars of a rating *)

Module Stars.
Import JS JSFacts Form PassFacts Rendering Sample.

(** A number is at least the integer [k] when its integer part is. *)
Lemma Qle_bool_floor (k : Z) (q : Qc) :
  Qle_bool (Qc_of_Z k) q = true ↔ (k ≤ Qfloor q)%Z.
Proof.
  rewrite Qle_bool_iff. change (this (Qc_of_Z k)) with (inject_Z k). split.
  - intros Hk. apply Qfloor_resp_le in Hk. by rewrite Qfloor_Z in Hk.
  - intros Hk. apply Qle_trans with (inject_Z (Qfloor q)).
    + by rewrite <- Zle_Qle.
    + apply Qfloor_le.
Qed.

Lemma filled_count_le (x : Number) (M : nat) : (filled_count x M ≤ M)%nat.
Proof. destruct x as [|[]|q]; simpl; lia. Qed.

(** The star at index [i] is filled when [i] is below the count. *)
Lemma number_le_filled_count (x : Number) (M i : nat) :
  (i < M)%nat →
  number_le (succ_index i) x = true ↔ (i < filled_count x M)%nat.
Proof.
  intros Hi. unfold succ_index, number_le, filled_count.
  destruct x as [|[]|q].
  - split; [discriminate | lia].
  - split; [discriminate | lia].
  - split; [lia | done].
  - rewrite Qle_bool_floor. lia.
Qed.

Lemma star_glyph_number `{Conversions} (v : Value) (i : nat) :
  star_glyph v i
  = if number_le (succ_index i) (to_number v) then "★" else "☆".
Proof.
  unfold star_glyph, succ_index. by rewrite less_equal_or_zero by lia.
Qed.

(** Glyphs that are filled below [k] and empty from [k] on. *)
Lemma glyphs_prefix (P : nat → bool) (k M : nat) :
  (k ≤ M)%nat →
  (∀ i, (i < M)%nat → P i = true ↔ (i < k)%nat) →
  map (λ i, str (if P i then "★" else "☆")) (seq 0 M) = filled_prefix k M.
Proof.
  intros Hk HP. unfold filled_prefix. apply list_eq. intros j.
  rewrite list_lookup_fmap. destruct (decide (j < M)%nat) as [Hj|Hj].
  - rewrite lookup_seq_lt by done. simpl.
    destruct (decide (j < k)%nat) as [Hjk|Hjk].
    + rewrite (proj2 (HP j Hj) Hjk).
      rewrite lookup_app_l by (rewrite length_replicate; lia).
      by rewrite lookup_replicate_2.
    + assert (P j = false) as ->.
      { apply not_true_is_false. intros E. by apply HP in E. }
      rewrite lookup_app_r by (rewrite length_replicate; lia).
      rewrite length_replicate, lookup_replicate_2 by lia. done.
  - rewrite lookup_seq_ge by lia. symmetry. apply lookup_ge_None_2.
    rewrite length_app, !length_replicate. lia.
Qed.

Section Stars.
Context `{Conversions}.
Variable props : Props.
Variable watchedValues : gmap string Value.
Variable errors : gmap string FieldError.

(** The stars of a visible rating, one per slot of [Array(max || 5)]. *)
Lemma rating_stars field slots w :
  shouldRender watchedValues field = true →
  type field = str "rating" →
  Array (logical_or (max field) (of_Z 5)) = inr slots →
  ∃ w' out,
    renderField props watchedValues errors field w = (w', inr out)
    ∧ stars out
      = map (λ i, (number (succ_index i),
                   str (star_glyph
                          (default undefined (formValues w !! name field)) i)))
          (seq 0 (length slots)).
Proof.
  intros Hs Ht Ha.
  destruct (star_run field (formValues w)) as (g & Hg & Hgs).
  destruct (mapM_map (star field) g (λ w', formValues w' = formValues w)
              (seq 0 (length slots)) Hg w eq_refl) as (w1 & E1 & _).
  unfold renderField. rewrite Hs. change (negb true) with false.
  cbv beta iota.
  unfold input_branch, textarea_branch, select_branch, radio_branch,
    checkbox_branch, file_branch, rating_branch, label_block, has_type.
  rewrite Ht, Ha.
  eexists _, _. split.
  - unfold bind, whenM, ret, lift; simpl. rewrite E1. reflexivity.
  - simpl. rewrite stars_errors_display, !app_nil_r.
    by apply stars_flat_map.
Qed.

(** X9.  A visible rating whose [max] is falsy (absent, [0], [null],
    [false], [NaN] or the empty string) renders five stars: [max || 5]
    replaces it by the default. *)
Theorem rating_falsy_max_is_five (field : Field) (w : World) :
  shouldRender watchedValues field = true →
  type field = str "rating" →
  truthy (max field) = false →
  ∃ w' out,
    renderField props watchedValues errors field w = (w', inr out)
    ∧ length (stars out) = 5%nat.
Proof.
  intros Hs Ht Hm.
  destruct (rating_stars field (replicate 5 undefined) w Hs Ht)
    as (w' & out & Hr & He).
  { unfold logical_or. rewrite Hm. apply (Array_of_Z 5). lia. }
  exists w', out. split; [done|].
  by rewrite He, length_map, length_seq.
Qed.

(** X10.  A visible rating whose [max] is truthy and not a number (a string
    such as ["3"], [true], an object) renders one star: [Array] called on a
    value that is not a number makes the array of that one value. *)
Theorem rating_max_not_a_number_is_one (field : Field) (w : World) :
  shouldRender watchedValues field = true →
  type field = str "rating" →
  truthy (max field) = true →
  kind (max field) ≠ Number_ →
  ∃ w' out,
    renderField props watchedValues errors field w = (w', inr out)
    ∧ length (stars out) = 1%nat.
Proof.
  intros Hs Ht Hm Hk.
  destruct (rating_stars field [max field] w Hs Ht)
    as (w' & out & Hr & He).
  { unfold logical_or. rewrite Hm. by destruct (max field). }
  exists w', out. split; [done|].
  by rewrite He, length_map, length_seq.
Qed.

(** X11.  A visible rating whose [max] is a number that is no array length
    (infinite, negative, with a fraction, or [2^32] and more) makes its
    block raise a [RangeError]. *)
Theorem rating_max_out_of_range_raises (field : Field) (n : Number)
    (w : World) :
  shouldRender watchedValues field = true →
  type field = str "rating" →
  max field = number n →
  (∃ s, n = Infinity s)
  ∨ (∃ q, n = Finite q
          ∧ (Qden q ≠ 1%positive ∨ (Qnum q < 0)%Z ∨ (2 ^ 32 ≤ Qnum q)%Z)) →
  snd (renderField props watchedValues errors field w) = inl RangeError.
Proof.
  intros Hs Ht Hm Hn.
  assert (Array (logical_or (max field) (of_Z 5)) = inl RangeError) as Ha.
  { rewrite Hm. unfold logical_or.
    destruct Hn as [[s ->] | (q & -> & Hq)]; [reflexivity|].
    assert (truthy (number (Finite q)) = true) as ->.
    { simpl. apply negb_true_iff, not_true_is_false. intros E.
      change (Qeq_bool q 0%Qc = true) in E. apply Qeq_bool_Qc in E.
      subst q. simpl in Hq. destruct Hq as [Hq | [Hq | Hq]]; [done | lia | lia]. }
    simpl. rewrite decide_False; [done|]. intros [Hd Hr].
    destruct Hq as [Hq | [Hq | Hq]]; [done | lia | lia]. }
  unfold renderField. rewrite Hs. change (negb true) with false.
  cbv beta iota.
  unfold input_branch, textarea_branch, select_branch, radio_branch,
    checkbox_branch, file_branch, rating_branch, has_type.
  rewrite Ht, Ha. reflexivity.
Qed.

(** X12.  The stars of a visible rating fill from the left: of its [M]
    stars, the first [k] show the filled glyph and the others the empty one,
    where [k] is the integer part of the field's current value as a number,
    kept between zero and [M] (zero when the value is no number). *)
Theorem stars_fill_from_the_left (field : Field) (M : nat) (w : World) :
  shouldRender watchedValues field = true →
  type field = str "rating" →
  star_count field M →
  let current := default undefined (formValues w !! name field) in
  ∃ w' out,
    renderField props watchedValues errors field w = (w', inr out)
    ∧ map snd (stars out)
      = filled_prefix (filled_count (to_number current) M) M.
Proof.
  intros Hs Ht Hm current.
  destruct (rating_stars field (replicate M undefined) w Hs Ht
              (slots_of_max field M Hm)) as (w' & out & Hr & He).
  exists w', out. split; [done|].
  rewrite He, length_replicate, map_map. simpl.
  fold current.
  rewrite <- (glyphs_prefix
                (λ i, number_le (succ_index i) (to_number current))).
  - apply map_ext. intros i. by rewrite star_glyph_number.
  - apply filled_count_le.
  - intros i Hi. by apply number_le_filled_count.
Qed.

End Stars.

Lemma rating_falsy_max_is_five_witness :
  ∃ w' out,
    renderField (H := Decimal.conversions) contact ∅ ∅ (rated (of_Z 0))
      (world ∅ ∅)
    = (w', inr out)
    ∧ length (stars out) = 5%nat.
Proof.
  apply (rating_falsy_max_is_five (H := Decimal.conversions) contact ∅ ∅
           (rated (of_Z 0))).
  - reflexivity.
  - reflexivity.
  - reflexivity.
Defined.

Lemma rating_max_not_a_number_is_one_witness :
  ∃ w' out,
    renderField (H := Decimal.conversions) contact ∅ ∅ (rated (str "3"))
      (world ∅ ∅)
    = (w', inr out)
    ∧ length (stars out) = 1%nat.
Proof.
  apply (rating_max_not_a_number_is_one (H := Decimal.conversions) contact
           ∅ ∅ (rated (str "3"))).
  - reflexivity.
  - reflexivity.
  - reflexivity.
  - discriminate.
Defined.

Lemma rating_max_out_of_range_raises_witness :
  snd (renderField (H := Decimal.conversions) contact ∅ ∅ (rated (of_Z (-1)))
         (world ∅ ∅))
  = inl RangeError.
Proof.
  apply (rating_max_out_of_range_raises (H := Decimal.conversions) contact
           ∅ ∅ (rated (of_Z (-1))) (Finite (Qc_of_Z (-1)))).
  - reflexivity.
  - reflexivity.
  - reflexivity.
  - right. exists (Qc_of_Z (-1)). split; [reflexivity|].
    right. left. reflexivity.
Defined.

Lemma stars_fill_from_the_left_witness :
  ∃ w' out,
    renderField (H := Decimal.conversions) contact
      {[ "satisfaction" := str "2" ]} ∅ satisfaction
      (world {[ "satisfaction" := str "2" ]} ∅)
    = (w', inr out)
    ∧ map snd (stars out) = [str "★"; str "★"; str "☆"].
Proof.
  destruct (stars_fill_from_the_left (H := Decimal.conversions) contact
              {[ "satisfaction" := str "2" ]} ∅ satisfaction 3
              (world {[ "satisfaction" := str "2" ]} ∅))
    as (w' & out & Hr & Hg).
  - reflexivity.
  - reflexivity.
  - right. split; [reflexivity|]. split; [lia | reflexivity].
  - exists w', out. split; [exact Hr | exact Hg].
Defined.

End Stars.

(** ** The class names are cosmetic *)

Module Cosmetic.
Import JS JSFacts Form PassFacts Sample.

Lemma alike_refl {A} (er : A → A) (m : M A) : alike er m m.
Proof. by intros w. Qed.

Lemma alike_bind {A B} (erA : A → A) (erB : B → B) (m1 m2 : M A)
    (k1 k2 : A → M B) :
  alike erA m1 m2 →
  (∀ a1 a2, erA a1 = erA a2 → alike erB (k1 a1) (k2 a2)) →
  alike erB (bind m1 k1) (bind m2 k2).
Proof.
  intros Hm Hk w. unfold bind. destruct (Hm w) as [Hw Hr].
  destruct (m1 w) as [w1 [e1|a1]], (m2 w) as [w2 [e2|a2]];
    simpl in *; subst; try discriminate.
  - split; [done | congruence].
  - apply Hk. congruence.
Qed.

Lemma alike_mapM {A} (f1 f2 : A → M Node) (l : list A) :
  (∀ a, alike erase (f1 a) (f2 a)) →
  alike (map erase) (mapM f1 l) (mapM f2 l).
Proof.
  intros Hf. induction l as [|a l IH]; simpl.
  - apply alike_refl.
  - eapply alike_bind; [apply Hf|]. intros b1 b2 Hb.
    eapply alike_bind; [apply IH|]. intros bs1 bs2 Hbs w. simpl.
    split; [done|]. by rewrite Hb, Hbs.
Qed.

Section Cosmetic.
Context `{Conversions}.
Variables p1 p2 : Props.

Ltac same_once_erased :=
  intros w; unfold bind, register, ret, lift, options_map;
  repeat match goal with
         | |- context [if ?c then _ else _] => destruct c
         | |- context [match options ?f with _ => _ end] =>
             destruct (options f)
         | |- context [match Array ?v with _ => _ end] => destruct (Array v)
         | |- context [let (_, _) := ?m ?w0 in _] =>
             destruct (m w0) as [? [?|?]]
         end;
  simpl; split; reflexivity.

Lemma alike_input_branch field :
  alike erase (input_branch p1 field) (input_branch p2 field).
Proof. unfold input_branch, whenM. same_once_erased. Qed.

Lemma alike_textarea_branch field :
  alike erase (textarea_branch p1 field) (textarea_branch p2 field).
Proof. unfold textarea_branch, whenM. same_once_erased. Qed.

Lemma alike_select_branch field :
  alike erase (select_branch p1 field) (select_branch p2 field).
Proof. unfold select_branch, whenM. same_once_erased. Qed.

Lemma alike_radio_branch field :
  alike erase (radio_branch p1 field) (radio_branch p2 field).
Proof. unfold radio_branch, whenM. same_once_erased. Qed.

Lemma alike_checkbox_branch field :
  alike erase (checkbox_branch p1 field) (checkbox_branch p2 field).
Proof. unfold checkbox_branch, whenM. same_once_erased. Qed.

Lemma alike_file_branch field :
  alike erase (file_branch p1 field) (file_branch p2 field).
Proof. unfold file_branch, whenM. same_once_erased. Qed.

Lemma alike_rating_branch field :
  alike erase (rating_branch p1 field) (rating_branch p2 field).
Proof. unfold rating_branch, whenM. same_once_erased. Qed.

Lemma erase_label_block field :
  erase (label_block p1 field) = erase (label_block p2 field).
Proof. unfold label_block, when. by destruct (_ && _). Qed.

Lemma alike_renderField watchedValues errors field :
  alike erase (renderField p1 watchedValues errors field)
    (renderField p2 watchedValues errors field).
Proof.
  unfold renderField.
  destruct (negb (shouldRender watchedValues field)); [apply alike_refl|].
  eapply alike_bind; [apply alike_input_branch|]. intros a1 a1' H1.
  eapply alike_bind; [apply alike_textarea_branch|]. intros a2 a2' H2.
  eapply alike_bind; [apply alike_select_branch|]. intros a3 a3' H3.
  eapply alike_bind; [apply alike_radio_branch|]. intros a4 a4' H4.
  eapply alike_bind; [apply alike_checkbox_branch|]. intros a5 a5' H5.
  eapply alike_bind; [apply alike_file_branch|]. intros a6 a6' H6.
  eapply alike_bind; [apply alike_rating_branch|]. intros a7 a7' H7.
  intros w. simpl. split; [done|].
  by rewrite erase_label_block, H1, H2, H3, H4, H5, H6, H7.
Qed.

(** X13.  The class-name props are cosmetic: two sets of props with the same
    fields, callback and schema end a pass in the same world, raise the same
    exception when they raise, and return forms that are the same once the
    [className] attributes are taken off. *)
Theorem class_names_are_cosmetic (w : World) :
  fields p1 = fields p2 →
  onSubmit p1 = onSubmit p2 →
  schema p1 = schema p2 →
  fst (ReusableForm p1 w) = fst (ReusableForm p2 w)
  ∧ erased (snd (ReusableForm p1 w)) = erased (snd (ReusableForm p2 w)).
Proof.
  intros Hf Ho Hs. revert w.
  change (alike erase (ReusableForm p1) (ReusableForm p2)).
  unfold ReusableForm. rewrite Hf, Ho, Hs.
  eapply alike_bind; [apply alike_refl|]. intros errors ? <-.
  eapply alike_bind; [apply alike_refl|]. intros watchedValues ? <-.
  eapply alike_bind.
  - apply alike_mapM. intros field. apply alike_renderField.
  - intros items1 items2 Hi w. simpl. split; [done|]. by rewrite Hi.
Qed.

End Cosmetic.

Lemma class_names_are_cosmetic_witness :
  fst (ReusableForm (H := Decimal.conversions)
         (props [email; gender; satisfaction]) (world goodEmail ∅))
  = fst (ReusableForm (H := Decimal.conversions)
           (styled [email; gender; satisfaction]) (world goodEmail ∅))
  ∧ erased (snd (ReusableForm (H := Decimal.conversions)
                   (props [email; gender; satisfaction])
                   (world goodEmail ∅)))
    = erased (snd (ReusableForm (H := Decimal.conversions)
                     (styled [email; gender; satisfaction])
                     (world goodEmail ∅))).
Proof.
  apply (class_names_are_cosmetic (H := Decimal.conversions)
           (props [email; gender; satisfaction])
           (styled [email; gender; satisfaction]) (world goodEmail ∅)).
  - reflexivity.
  - reflexivity.
  - reflexivity.
Defined.

End Cosmetic.
